(** * ion-avp: the sample Builder of [pkg/builder.go]

    A shallow embedding of [Builder] (the per-track engine that turns RTP
    packets into samples and fans them out to the attached elements) and
    of the two goroutines [build] and [forward] it starts.

    The two goroutines and the callers of [AttachElement], [OnStop],
    [stop] and [stats] run concurrently.  They are modelled as an
    interleaving of transitions ([step]) on one state ([Sys]); every
    transition is one of the source's atomic units:

    - a section between [b.mu.Lock()]/[b.mu.RLock()] and the matching
      unlock is one transition.  The write lock excludes everything else
      that takes [b.mu]; the read sections only read [stopped] and
      [elements], so they commute with each other.  The statements that
      are executed without the lock ([ReadRTP], [Push],
      [PopWithTimestamp], the channel send and receive, [b.sequence++])
      are transitions of their own, and they touch the state shared with
      a locked section only through the channel [out];
    - a channel operation is one transition, with Go's semantics: a send
      blocks while the buffer is full and panics once the channel is
      closed, a receive blocks while the buffer is empty and the channel
      open, and yields nil once it is closed and drained. *)

From Stdlib Require Import ZArith List String Ascii Bool Lia.
From Stdlib Require Import Strings.Byte.
Import ListNotations.

Local Open Scope string_scope.
Local Open Scope list_scope.

(** ** The packages [builder.go] imports *)

(** [webrtc.Opus], [webrtc.VP8], [webrtc.VP9], [webrtc.H264]: the codec
    names of the webrtc package.  Only their being four distinct strings
    matters below. *)
Definition Opus : string := "opus".
Definition VP8 : string := "VP8".
Definition VP9 : string := "VP9".
Definition H264 : string := "H264".

(** What [track.Codec()] returns, as far as [builder.go] reads it. *)
Record RTPCodec := {
  Name : string;
  codec_Type : Z
}.

(** [*webrtc.Track]: its [ID()] and its [Codec()]. *)
Record webrtc_Track := {
  ID : string;
  Codec : RTPCodec
}.

(** [*rtp.Packet]: the transport sequence number, the timestamp and the
    payload.  The builder only moves packets from [ReadRTP] to [Push]. *)
Record Packet := {
  pkt_SequenceNumber : Z;
  pkt_Timestamp : Z;
  pkt_Payload : list byte
}.

(** [*media.Sample], of which [build] reads [Data]. *)
Record media_Sample := {
  Data : list byte
}.

(** The values assigned to [depacketizer] and [checker] in [NewBuilder].
    Both variables are interfaces: [option] has [None] for nil. *)
Inductive Depacketizer := OpusPacket | VP8Packet | VP9Packet | H264Packet.
Inductive PartitionHeadChecker :=
  OpusPartitionHeadChecker | VP8PartitionHeadChecker | VP9PartitionHeadChecker.

(** Go's [error] values as the builder tells them apart: [io.EOF], and
    any other error with the text of its [Error()]. *)
Inductive error :=
| io_EOF
| errors_New (msg : string).

Definition Error (err : error) : string :=
  match err with
  | io_EOF => "EOF"
  | errors_New msg => msg
  end.

(** The result of [b.track.ReadRTP()]. *)
Inductive ReadResult :=
| ReadPacket (pkt : Packet)
| ReadError (err : error).

(** The [samplebuilder] package is a library outside the repository: the
    builder is verified against its interface. *)
Class SampleBuilderAPI := {
  SampleBuilder : Type;
  (** [samplebuilder.New(maxLate, depacketizer)] *)
  sb_New : Z -> option Depacketizer -> SampleBuilder;
  (** [samplebuilder.WithPartitionHeadChecker(checker)(b)] *)
  sb_WithPartitionHeadChecker : PartitionHeadChecker -> SampleBuilder -> SampleBuilder;
  (** [b.Push(pkt)] *)
  sb_Push : Packet -> SampleBuilder -> SampleBuilder;
  (** [b.PopWithTimestamp()]: the sample (nil when none is ready), the
      timestamp, and the builder after the call. *)
  sb_PopWithTimestamp : SampleBuilder -> option media_Sample * Z * SampleBuilder
}.

(** ** The package's own types *)

(** [Sample], as the literal in [build] fills it. *)
Record Sample := {
  Type_ : Z;
  SequenceNumber : Z;
  Timestamp : Z;
  Payload : list byte;
  TrackID : string
}.

(** [ErrCodecNotSupported]: declared by [builder.go], which never returns
    it. *)
Definition ErrCodecNotSupported : error := errors_New "codec not supported".

(** An [Element] is held through its interface ([Write], [Close]); what
    the calls do is the element's business.  The model keeps the identity
    of the value and the name of its dynamic type (printed by [stats]). *)
Record Element := {
  elem_id : nat;
  elem_type : string
}.

(** The [func()] given to [OnStop], by identity. *)
Definition Handler := nat.

(** [maxSize], the capacity of [out]. *)
Definition maxSize : nat := 100.

(** [sequence] is a [uint16]. *)
Definition uint16_modulus : Z := 65536.
Definition uint16_incr (n : Z) : Z := ((n + 1) mod uint16_modulus)%Z.

(** ** Buffered channels of [*Sample] *)

Record Chan := {
  buf : list Sample;
  cap : nat;
  closed : bool
}.

Definition make_chan (n : nat) : Chan :=
  {| buf := []; cap := n; closed := false |}.

Inductive SendResult :=
| SendOk (c : Chan)
| SendBlocks
| SendPanics.

(** [c <- v] *)
Definition chan_send (c : Chan) (v : Sample) : SendResult :=
  if closed c then SendPanics
  else if (List.length (buf c) <? cap c)%nat
       then SendOk {| buf := buf c ++ [v]; cap := cap c; closed := closed c |}
       else SendBlocks.

Inductive RecvResult :=
| RecvOk (v : option Sample) (c : Chan)
| RecvBlocks.

(** [<-c]: the buffered values first, then nil if the channel is closed. *)
Definition chan_recv (c : Chan) : RecvResult :=
  match buf c with
  | v :: rest => RecvOk (Some v) {| buf := rest; cap := cap c; closed := closed c |}
  | [] => if closed c then RecvOk None c else RecvBlocks
  end.

(** [close(c)]: [None] is the panic of closing a closed channel. *)
Definition chan_close (c : Chan) : option Chan :=
  if closed c then None
  else Some {| buf := buf c; cap := cap c; closed := true |}.

(** ** Observable effects *)

Inductive Event :=
| EvSend (s : Sample)                      (* a sample entered [out] *)
| EvWrite (e : Element) (s : option Sample) (* [e.Write(sample)] *)
| EvClose (e : Element)                    (* [e.Close()] *)
| EvOnStop (f : Handler)                   (* [b.onStopHandler()] *)
| EvCloseOut                               (* [close(b.out)] *)
| EvLogError (msg : string).               (* [log.Errorf]; Debugf and Tracef lines are left out *)

Section Builder.

Context {SB : SampleBuilderAPI}.

(** The [Builder] struct.  [mu] is not a field: it is what makes the
    locked sections single transitions. *)
Record Builder := {
  stopped : bool;
  onStopHandler : option Handler;
  builder : SampleBuilder;
  elements : list Element;
  sequence : Z;
  track : webrtc_Track;
  out : Chan
}.

(** Where the goroutine running [build] stands. *)
Inductive BuildPC :=
| BLoop                                             (* line 93: head of the outer loop *)
| BRead                                             (* line 100: [ReadRTP] *)
| BStop                                             (* line 103: [b.stop()] after [io.EOF] *)
| BPop                                              (* line 114: [PopWithTimestamp] *)
| BCheck (sample : option media_Sample) (timestamp : Z) (* line 117: re-read [stopped] *)
| BSend (sample : media_Sample) (timestamp : Z)     (* line 128: [b.out <- ...] *)
| BReturned.

(** Where the goroutine running [forward] stands. *)
Inductive ForwardPC :=
| FRecv                                             (* line 143: [<-b.out] *)
| FDispatch (sample : option Sample)                (* line 145: the locked section *)
| FReturned.

(** The builder, its two goroutines, whether the process has panicked,
    and the effects so far (oldest first).  The panics recorded are those
    of the operations on [out]; what an element, a handler or the sample
    builder does inside a call is outside the model. *)
Record Sys := {
  self : Builder;
  pc_build : BuildPC;
  pc_forward : ForwardPC;
  panicked : bool;
  trace : list Event
}.

(** *** Field updates *)

Definition set_stopped (v : bool) (b : Builder) : Builder :=
  {| stopped := v; onStopHandler := onStopHandler b; builder := builder b;
     elements := elements b; sequence := sequence b; track := track b; out := out b |}.

Definition set_onStopHandler (f : option Handler) (b : Builder) : Builder :=
  {| stopped := stopped b; onStopHandler := f; builder := builder b;
     elements := elements b; sequence := sequence b; track := track b; out := out b |}.

Definition set_builder (sb : SampleBuilder) (b : Builder) : Builder :=
  {| stopped := stopped b; onStopHandler := onStopHandler b; builder := sb;
     elements := elements b; sequence := sequence b; track := track b; out := out b |}.

Definition set_elements (es : list Element) (b : Builder) : Builder :=
  {| stopped := stopped b; onStopHandler := onStopHandler b; builder := builder b;
     elements := es; sequence := sequence b; track := track b; out := out b |}.

Definition set_sequence (n : Z) (b : Builder) : Builder :=
  {| stopped := stopped b; onStopHandler := onStopHandler b; builder := builder b;
     elements := elements b; sequence := n; track := track b; out := out b |}.

Definition set_out (c : Chan) (b : Builder) : Builder :=
  {| stopped := stopped b; onStopHandler := onStopHandler b; builder := builder b;
     elements := elements b; sequence := sequence b; track := track b; out := c |}.

Definition with_self (b : Builder) (s : Sys) : Sys :=
  {| self := b; pc_build := pc_build s; pc_forward := pc_forward s;
     panicked := panicked s; trace := trace s |}.

Definition goto_build (pc : BuildPC) (s : Sys) : Sys :=
  {| self := self s; pc_build := pc; pc_forward := pc_forward s;
     panicked := panicked s; trace := trace s |}.

Definition goto_forward (pc : ForwardPC) (s : Sys) : Sys :=
  {| self := self s; pc_build := pc_build s; pc_forward := pc;
     panicked := panicked s; trace := trace s |}.

Definition panic (s : Sys) : Sys :=
  {| self := self s; pc_build := pc_build s; pc_forward := pc_forward s;
     panicked := true; trace := trace s |}.

Definition emit (evs : list Event) (s : Sys) : Sys :=
  {| self := self s; pc_build := pc_build s; pc_forward := pc_forward s;
     panicked := panicked s; trace := trace s ++ evs |}.

(** *** [NewBuilder] *)

(** The [switch] on [track.Codec().Name]: the values of [depacketizer]
    and [checker] after it.  Both start as nil and there is no default
    case. *)
Definition select_codec (name : string)
  : option Depacketizer * option PartitionHeadChecker :=
  if String.eqb name Opus then (Some OpusPacket, Some OpusPartitionHeadChecker)
  else if String.eqb name VP8 then (Some VP8Packet, Some VP8PartitionHeadChecker)
  else if String.eqb name VP9 then (Some VP9Packet, Some VP9PartitionHeadChecker)
  else if String.eqb name H264 then (Some H264Packet, None)
  else (None, None).

Definition NewBuilder (t : webrtc_Track) (maxLate : Z) : Sys :=
  let depacketizer := fst (select_codec (Name (Codec t))) in
  let checker := snd (select_codec (Name (Codec t))) in
  let sb := sb_New maxLate depacketizer in
  let sb := match checker with
            | Some c => sb_WithPartitionHeadChecker c sb
            | None => sb
            end in
  {| self := {| stopped := false; onStopHandler := None; builder := sb;
                elements := []; sequence := 0%Z; track := t;
                out := make_chan maxSize |};
     pc_build := BLoop;       (* go b.build() *)
     pc_forward := FRecv;     (* go b.forward() *)
     panicked := false;
     trace := [] |}.

(** *** The methods called from outside *)

Definition AttachElement (e : Element) (b : Builder) : Builder :=
  set_elements (elements b ++ [e]) b.

Definition Track (b : Builder) : webrtc_Track := track b.

Definition OnStop (f : option Handler) (b : Builder) : Builder :=
  set_onStopHandler f b.

(** [stop], one locked section.  Closing [out] panics if it is closed
    already. *)
Definition stop (s : Sys) : Sys :=
  let b := self s in
  if stopped b then s
  else
    let s1 := emit (map EvClose (elements b)) (with_self (set_stopped true b) s) in
    let s2 := match onStopHandler b with
              | Some f => emit [EvOnStop f] s1
              | None => s1
              end in
    match chan_close (out b) with
    | Some c => emit [EvCloseOut] (with_self (set_out c (self s2)) s2)
    | None => panic s2
    end.

Definition newline : string := String (ascii_of_nat 10) EmptyString.

Definition stats (b : Builder) : string :=
  fold_left (fun info e => (info ++ "        element: " ++ elem_type e ++ newline)%string)
            (elements b)
            ("      track: " ++ ID (track b) ++ newline)%string.

(** *** [build] *)

(** One transition of the goroutine running [build].  [r] is what
    [ReadRTP] returns, and is read at [BRead] only.  [None]: the
    goroutine cannot move (it has returned, or its send blocks). *)
Definition build_step (r : ReadResult) (s : Sys) : option Sys :=
  let b := self s in
  match pc_build s with
  | BLoop =>
      if stopped b then Some (goto_build BReturned s)
      else Some (goto_build BRead s)
  | BRead =>
      match r with
      | ReadError io_EOF => Some (goto_build BStop s)
      | ReadError err =>
          Some (goto_build BLoop
                  (emit [EvLogError ("Error reading track rtp " ++ Error err)%string] s))
      | ReadPacket pkt =>
          Some (goto_build BPop (with_self (set_builder (sb_Push pkt (builder b)) b) s))
      end
  | BStop => Some (goto_build BReturned (stop s))
  | BPop =>
      let '(sample, timestamp, sb) := sb_PopWithTimestamp (builder b) in
      Some (goto_build (BCheck sample timestamp) (with_self (set_builder sb b) s))
  | BCheck sample timestamp =>
      if stopped b then Some (goto_build BReturned s)
      else match sample with
           | None => Some (goto_build BLoop s)
           | Some smp => Some (goto_build (BSend smp timestamp) s)
           end
  | BSend sample timestamp =>
      let v := {| Type_ := codec_Type (Codec (track b));
                  SequenceNumber := sequence b;
                  Timestamp := timestamp;
                  Payload := Data sample;
                  TrackID := ID (track b) |} in
      match chan_send (out b) v with
      | SendOk c =>
          Some (goto_build BPop
                  (emit [EvSend v]
                     (with_self (set_sequence (uint16_incr (sequence b)) (set_out c b)) s)))
      | SendBlocks => None
      | SendPanics => Some (panic s)
      end
  | BReturned => None
  end.

(** *** [forward] *)

(** The [range] loop over [elements]: [results] holds what the
    successive [Write] calls return (nil where the list is too short). *)
Fixpoint write_all (es : list Element) (sample : option Sample)
    (results : list (option error)) : list Event :=
  match es with
  | [] => []
  | e :: es' =>
      EvWrite e sample
        :: match hd None results with
           | Some err => [EvLogError ("error writing sample: " ++ Error err)%string]
           | None => []
           end
        ++ write_all es' sample (tl results)
  end.

(** One transition of the goroutine running [forward]; [results] is read
    by the locked section only. *)
Definition forward_step (results : list (option error)) (s : Sys) : option Sys :=
  let b := self s in
  match pc_forward s with
  | FRecv =>
      match chan_recv (out b) with
      | RecvOk v c => Some (goto_forward (FDispatch v) (with_self (set_out c b) s))
      | RecvBlocks => None
      end
  | FDispatch sample =>
      let elements := elements b in
      if stopped b then Some (goto_forward FReturned s)
      else Some (goto_forward FRecv (emit (write_all elements sample results) s))
  | FReturned => None
  end.

(** *** The interleaving *)

Inductive Action :=
| ActBuild (r : ReadResult)
| ActForward (results : list (option error))
| ActAttachElement (e : Element)
| ActOnStop (f : option Handler)
| ActStop
| ActStats.

(** A panic ends the process: nothing moves afterwards. *)
Definition step (a : Action) (s : Sys) : option Sys :=
  if panicked s then None
  else match a with
       | ActBuild r => build_step r s
       | ActForward results => forward_step results s
       | ActAttachElement e => Some (with_self (AttachElement e (self s)) s)
       | ActOnStop f => Some (with_self (OnStop f (self s)) s)
       | ActStop => Some (stop s)
       | ActStats => let _ := stats (self s) in Some s
       end.

Fixpoint run (acts : list Action) (s : Sys) : option Sys :=
  match acts with
  | [] => Some s
  | a :: acts' =>
      match step a s with
      | Some s' => run acts' s'
      | None => None
      end
  end.

(** *** Reading the trace *)

Definition is_write (ev : Event) : bool :=
  match ev with EvWrite _ _ => true | _ => false end.

Definition is_log (ev : Event) : bool :=
  match ev with EvLogError _ => true | _ => false end.

(** The effects of a teardown: [Close] calls, the stop handler, the
    closing of [out]. *)
Definition is_teardown (ev : Event) : bool :=
  match ev with
  | EvClose _ | EvOnStop _ | EvCloseOut => true
  | _ => false
  end.

Definition handler_events (f : option Handler) : list Event :=
  match f with
  | Some h => [EvOnStop h]
  | None => []
  end.

(** What one teardown does, in order, for the elements [es] and the
    handler [f] registered when it runs. *)
Definition teardown_of (es : list Element) (f : option Handler) : list Event :=
  map EvClose es ++ handler_events f ++ [EvCloseOut].

(** The samples that entered [out], oldest first. *)
Fixpoint sent (tr : list Event) : list Sample :=
  match tr with
  | [] => []
  | EvSend v :: tr' => v :: sent tr'
  | _ :: tr' => sent tr'
  end.

(** The element an event calls into, if any. *)
Definition callee (ev : Event) : option Element :=
  match ev with
  | EvWrite e _ | EvClose e => Some e
  | _ => None
  end.

(** *** What a transition can do

    [coherent]: [out] is closed exactly when the builder is stopped.
    [effect b evs b']: the events a transition adds and
    what it does to the [stopped], [elements] and [sequence] of [b]; one
    constructor per kind of transition. *)
Definition coherent (s : Sys) : Prop :=
  closed (out (self s)) = stopped (self s).

Inductive effect (b : Builder) : list Event -> Builder -> Prop :=
| eff_teardown b' :
    stopped b = false ->
    stopped b' = true ->
    elements b' = elements b ->
    sequence b' = sequence b ->
    effect b (teardown_of (elements b) (onStopHandler b)) b'
| eff_dispatch b' sample results :
    stopped b = false ->
    stopped b' = false ->
    elements b' = elements b ->
    sequence b' = sequence b ->
    effect b (write_all (elements b) sample results) b'
| eff_send b' v :
    stopped b' = stopped b ->
    elements b' = elements b ->
    SequenceNumber v = sequence b ->
    sequence b' = uint16_incr (sequence b) ->
    effect b [EvSend v] b'
| eff_log b' msg :
    stopped b' = stopped b ->
    elements b' = elements b ->
    sequence b' = sequence b ->
    effect b [EvLogError msg] b'
| eff_silent b' more :
    stopped b' = stopped b ->
    elements b' = elements b ++ more ->
    sequence b' = sequence b ->
    effect b [] b'.

(** *** Invariants, as predicates on the builder and the trace *)

(** An event that is neither a [Write] nor an effect of teardown. *)
Definition quiet (ev : Event) : Prop :=
  is_write ev = false /\ is_teardown ev = false.

(** The effects of teardown occur as one block, at most once. *)
Definition teardown_once (b : Builder) (tr : list Event) : Prop :=
  if stopped b
  then exists es f more,
         elements b = es ++ more /\ filter is_teardown tr = teardown_of es f
  else filter is_teardown tr = [].

(** Every [Write] precedes every effect of teardown. *)
Definition writes_then_teardown (b : Builder) (tr : list Event) : Prop :=
  exists pre post,
    tr = pre ++ post /\
    Forall (fun ev => is_teardown ev = false) pre /\
    Forall (fun ev => is_write ev = false) post /\
    (stopped b = false -> post = []).

(** The emission counter counts the samples sent, modulo 2^16. *)
Definition nth_sequence (k : nat) : Z := (Z.of_nat k mod uint16_modulus)%Z.

Definition counts_sent (b : Builder) (tr : list Event) : Prop :=
  sequence b = nth_sequence (List.length (sent tr)) /\
  map SequenceNumber (sent tr) = map nth_sequence (seq 0 (List.length (sent tr))).

(** Only attached elements are called. *)
Definition calls_attached (b : Builder) (tr : list Event) : Prop :=
  forall ev e, In ev tr -> callee ev = Some e -> In e (elements b).

(** The transitions of the goroutine running [build]. *)
Definition is_build (a : Action) : bool :=
  match a with ActBuild _ => true | _ => false end.

(** The errors among the results of the first [n] [Write] calls. *)
Fixpoint write_errors (n : nat) (results : list (option error)) : list error :=
  match n with
  | O => []
  | S n' =>
      match hd None results with
      | Some err => [err]
      | None => []
      end ++ write_errors n' (tl results)
  end.

(** *** More readings of the state, the trace and the schedule *)

Definition is_onstop (ev : Event) : bool :=
  match ev with EvOnStop _ => true | _ => false end.



(** The elements the schedule attaches, in order. *)
Fixpoint attached (acts : list Action) : list Element :=
  match acts with
  | [] => []
  | ActAttachElement e :: acts' => e :: attached acts'
  | _ :: acts' => attached acts'
  end.

(** The handler left by the [OnStop] calls of the schedule, starting
    from [f]. *)
Fixpoint registered (f : option Handler) (acts : list Action) : option Handler :=
  match acts with
  | [] => f
  | ActOnStop f' :: acts' => registered f' acts'
  | _ :: acts' => registered f acts'
  end.

(** The transitions that can set [stopped]: a call of [stop] from
    outside, and a step of [build] whose read, if it is one, ends the
    track. *)
Definition triggers_stop (a : Action) : bool :=
  match a with
  | ActStop => true
  | ActBuild (ReadError io_EOF) => true
  | _ => false
  end.

Definition is_forward (a : Action) : bool :=
  match a with ActForward _ => true | _ => false end.

(** How many transitions [build] and [forward] have left at most once
    the builder is stopped. *)
Definition build_dist (pc : BuildPC) : nat :=
  match pc with
  | BLoop => 1
  | BRead => 3
  | BStop => 1
  | BPop => 2
  | BCheck _ _ => 1
  | BSend _ _ => 1
  | BReturned => 0
  end.

Definition forward_dist (pc : ForwardPC) : nat :=
  match pc with
  | FRecv => 2
  | FDispatch _ => 1
  | FReturned => 0
  end.

(** The lines of [stats]. *)
Definition track_line (t : webrtc_Track) : string :=
  ("      track: " ++ ID t ++ newline)%string.

Definition element_line (e : Element) : string :=
  ("        element: " ++ elem_type e ++ newline)%string.

(** [out] keeps its capacity and holds no more than that. *)
Definition chan_bounded (s : Sys) : Prop :=
  cap (out (self s)) = maxSize /\
  (List.length (buf (out (self s))) <= maxSize)%nat.



(** A panic of an operation on [out] is a send on the closed channel. *)
Definition panic_at_send (s : Sys) : Prop :=
  panicked s = true ->
  stopped (self s) = true /\ exists sample timestamp, pc_build s = BSend sample timestamp.

(** The state reflects the calls made: the elements attached, the
    handler registered, the track given to [NewBuilder]. *)
Definition records (t : webrtc_Track) (es : list Element) (f : option Handler)
    (s : Sys) : Prop :=
  elements (self s) = es /\ onStopHandler (self s) = f /\ track (self s) = t.

(** Neither stopped nor panicked, and both goroutines in their loops. *)
Definition running (s : Sys) : Prop :=
  stopped (self s) = false /\ panicked s = false /\
  pc_build s <> BStop /\ pc_build s <> BReturned /\ pc_forward s <> FReturned.

(** A goroutine that has returned has seen [stopped] set. *)
Definition returned_after_stop (s : Sys) : Prop :=
  (pc_build s = BReturned -> stopped (self s) = true) /\
  (pc_forward s = FReturned -> stopped (self s) = true).

(** The states an engine built by [NewBuilder] can be in. *)
Definition reachable (t : webrtc_Track) (maxLate : Z) (s : Sys) : Prop :=
  exists acts, run acts (NewBuilder t maxLate) = Some s.

End Builder.

(** ** A sample builder to run the model on

    Every packet is a complete sample: [Push] queues the packet, and
    [PopWithTimestamp] hands the oldest queued payload out with the
    packet's timestamp. *)
#[local] Instance PacketPerSample : SampleBuilderAPI := {|
  SampleBuilder := list Packet;
  sb_New := fun _ _ => [];
  sb_WithPartitionHeadChecker := fun _ sb => sb;
  sb_Push := fun pkt sb => sb ++ [pkt];
  sb_PopWithTimestamp := fun sb =>
    match sb with
    | [] => (None, 0%Z, [])
    | pkt :: rest => (Some {| Data := pkt_Payload pkt |}, pkt_Timestamp pkt, rest)
    end
|}.

Definition opus_track : webrtc_Track :=
  {| ID := "audio0"; Codec := {| Name := "opus"; codec_Type := 111 |} |}.

Definition pcmu_track : webrtc_Track :=
  {| ID := "audio1"; Codec := {| Name := "PCMU"; codec_Type := 0 |} |}.

Definition pkt0 : Packet :=
  {| pkt_SequenceNumber := 7000; pkt_Timestamp := 960; pkt_Payload := [x01; x02] |}.

Definition recorder : Element := {| elem_id := 1; elem_type := "*elements.WebmSaver" |}.
Definition analyzer : Element := {| elem_id := 2; elem_type := "*elements.Decoder" |}.

(** The build goroutine takes one packet from [ReadRTP] to [out], finds
    no second sample and is back at the head of its loop. *)
Definition ingest_one (pkt : Packet) : list Action :=
  [ ActBuild (ReadPacket pkt);    (* line 93: not stopped *)
    ActBuild (ReadPacket pkt);    (* line 100: ReadRTP, Push *)
    ActBuild (ReadPacket pkt);    (* line 114: a sample *)
    ActBuild (ReadPacket pkt);    (* line 117: not stopped *)
    ActBuild (ReadPacket pkt);    (* line 128: send, sequence++ *)
    ActBuild (ReadPacket pkt);    (* line 114: nil *)
    ActBuild (ReadPacket pkt) ].  (* line 117: not stopped, break *)

(** The forward goroutine receives one sample and dispatches it. *)
Definition dispatch_one (results : list (option error)) : list Action :=
  [ ActForward results; ActForward results ].

(** The state a run from a fresh builder for [opus_track] ends in. *)
Definition after (acts : list Action) : Sys :=
  match run acts (NewBuilder opus_track 50) with
  | Some s => s
  | None => NewBuilder opus_track 50
  end.

Definition sample0 : Sample :=
  {| Type_ := 111; SequenceNumber := 0; Timestamp := 960;
     Payload := [x01; x02]; TrackID := "audio0" |}.

Definition late : Element := {| elem_id := 3; elem_type := "*elements.Filewriter" |}.

(** Two elements and a stop handler; one sample goes through; then the
    track ends and [build] is about to call [stop] when another
    goroutine calls [stop] first; [forward] finds [out] closed. *)
Definition two_stop_run : list Action :=
  [ ActAttachElement recorder; ActAttachElement analyzer; ActOnStop (Some 5%nat) ]
  ++ ingest_one pkt0
  ++ dispatch_one [Some (errors_New "disk full")]
  ++ [ ActBuild (ReadError io_EOF);    (* line 93: not stopped *)
       ActBuild (ReadError io_EOF);    (* line 100: io.EOF *)
       ActStop;                        (* stop() from outside *)
       ActBuild (ReadError io_EOF);    (* line 103: b.stop() *)
       ActForward []; ActForward [] ].

Definition stopped_state : Sys := Eval vm_compute in after two_stop_run.

(** More transitions from [stopped_state]. *)
Definition late_run : list Action :=
  [ ActAttachElement late; ActOnStop None; ActStats; ActStop ].

Definition late_state : Sys :=
  Eval vm_compute in
    match run late_run stopped_state with
    | Some s => s
    | None => stopped_state
    end.


(** [forward] holding the first sample, with two elements attached. *)
Definition dispatching_run : list Action :=
  [ ActAttachElement recorder; ActAttachElement analyzer ]
  ++ ingest_one pkt0 ++ [ ActForward [] ].

Definition dispatching_state : Sys := Eval vm_compute in after dispatching_run.

(** One element attached and one sample dispatched to it. *)
Definition dispatched_run : list Action :=
  [ ActAttachElement recorder ] ++ ingest_one pkt0 ++ dispatch_one [].

Definition dispatched_state : Sys := Eval vm_compute in after dispatched_run.

(** Two packets, two samples. *)
Definition two_samples_run : list Action :=
  ingest_one pkt0 ++ ingest_one pkt0.

Definition two_samples_state : Sys := Eval vm_compute in after two_samples_run.

(** [build] has re-read [stopped] (false) and is about to send when
    [stop] runs. *)
Definition race_run : list Action :=
  [ ActBuild (ReadPacket pkt0);    (* line 93: not stopped *)
    ActBuild (ReadPacket pkt0);    (* line 100: ReadRTP, Push *)
    ActBuild (ReadPacket pkt0);    (* line 114: a sample *)
    ActBuild (ReadPacket pkt0);    (* line 117: not stopped *)
    ActStop;                       (* lines 163-176: close(b.out) *)
    ActBuild (ReadPacket pkt0) ].  (* line 128: send on the closed channel *)

(** A fresh builder for [opus_track] but for its counter and its trace:
    no element, both goroutines at the head of their loops, [out] empty. *)
Definition idle (q : Z) (tr : list Event) : Sys :=
  {| self := {| stopped := false; onStopHandler := None; builder := [];
                elements := []; sequence := q; track := opus_track;
                out := make_chan maxSize |};
     pc_build := BLoop; pc_forward := FRecv; panicked := false; trace := tr |}.

(** One packet in, one sample out and dispatched, [n] times over. *)
Definition one_sample : list Action := ingest_one pkt0 ++ dispatch_one [].

Definition samples (n : nat) : list Action := List.concat (repeat one_sample n).




(** A hundred packets in and none dispatched, then [build] at its send
    with the next sample. *)
Definition full_run : list Action :=
  List.concat (repeat (ingest_one pkt0) 100)
  ++ [ ActBuild (ReadPacket pkt0);    (* line 93: not stopped *)
       ActBuild (ReadPacket pkt0);    (* line 100: ReadRTP, Push *)
       ActBuild (ReadPacket pkt0);    (* line 114: a sample *)
       ActBuild (ReadPacket pkt0) ].  (* line 117: not stopped *)

Definition full_state : Sys := Eval vm_compute in after full_run.

(** The state [race_run] ends in. *)
Definition panicked_state : Sys := Eval vm_compute in after race_run.

(** One element, one sample queued and not yet received, then [stop]
    from outside. *)
Definition just_stopped_run : list Action :=
  [ ActAttachElement recorder ] ++ ingest_one pkt0 ++ [ ActStop ].

Definition just_stopped_state : Sys := Eval vm_compute in after just_stopped_run.

(** ** [AVP]: one SFU client per address

    [AVP.Process] and the callback it registers with [OnClose].  [SFU],
    [Config], [NewSFU], [GetTransport] and the transport's [Process] are
    declared elsewhere in the package: the client values and the
    configuration are parameters, the client [NewSFU] would return is an
    argument of [Process], and the calls made on clients are returned
    in order.  [sync.RWMutex] makes [Process] and the callback exclude
    each other: each is one function on the state. *)
Module Avp.
Section WithClients.

(** [Config], and the [*SFU] values other than nil. *)
Context {Config SFU : Type}.

(** [map[string]*SFU], with [m[addr]], [m[addr] = c] and
    [delete(m, addr)]. *)
Definition Clients := list (string * SFU).

Fixpoint lookup (addr : string) (m : Clients) : option SFU :=
  match m with
  | [] => None
  | (k, c) :: m' => if String.eqb k addr then Some c else lookup addr m'
  end.

Definition delete (addr : string) (m : Clients) : Clients :=
  filter (fun p => negb (String.eqb (fst p) addr)) m.

Definition store (addr : string) (c : SFU) (m : Clients) : Clients :=
  (addr, c) :: delete addr m.

Record AVP := {
  config : Config;
  clients : Clients
}.

(** The calls [Process] makes outside [AVP]. *)
Inductive Call :=
| CallNewSFU (addr : string) (cfg : Config)
| CallOnClose (c : SFU) (addr : string)
| CallGetTransport (c : SFU) (sid : string)
| CallProcess (c : SFU) (sid pid tid eid : string) (config : list byte).

(** [NewAVP]: no client yet.  [log.Init] and the [stats] goroutine it
    starts, which only reads [clients], are left out. *)
Definition NewAVP (c : Config) : AVP :=
  {| config := c; clients := [] |}.

(** [Process]; [new] is what [NewSFU(addr, a.config)] returns if it is
    called. *)
Definition Process (new : SFU) (addr pid sid tid eid : string)
    (cfg : list byte) (a : AVP) : AVP * list Call :=
  match lookup addr (clients a) with
  | None =>
      ({| config := config a; clients := store addr new (clients a) |},
       [ CallNewSFU addr (config a); CallOnClose new addr;
         CallGetTransport new sid; CallProcess new sid pid tid eid cfg ])
  | Some c =>
      (a, [ CallGetTransport c sid; CallProcess c sid pid tid eid cfg ])
  end.

(** The function given to [c.OnClose]: [delete(a.clients, addr)]. *)
Definition on_close (addr : string) (a : AVP) : AVP :=
  {| config := config a; clients := delete addr (clients a) |}.

(** What happens to an [AVP]: a [Process] call, or the close callback
    of the client of an address. *)
Inductive Op :=
| OpProcess (new : SFU) (addr pid sid tid eid : string) (cfg : list byte)
| OpClosed (addr : string).

Definition apply_op (o : Op) (st : AVP * list Call) : AVP * list Call :=
  match o with
  | OpProcess new addr pid sid tid eid cfg =>
      let '(a', calls) := Process new addr pid sid tid eid cfg (fst st) in
      (a', snd st ++ calls)
  | OpClosed addr => (on_close addr (fst st), snd st)
  end.

Definition run_ops (ops : list Op) (c : Config) : AVP * list Call :=
  fold_left (fun st o => apply_op o st) ops (NewAVP c, []).

(** How often [NewSFU] was called for [addr], and how often the close
    callback of [addr] ran. *)
Definition creations (addr : string) (calls : list Call) : nat :=
  List.length (filter (fun c => match c with
                                | CallNewSFU k _ => String.eqb k addr
                                | _ => false
                                end) calls).

Definition closings (addr : string) (ops : list Op) : nat :=
  List.length (filter (fun o => match o with
                                | OpClosed k => String.eqb k addr
                                | _ => false
                                end) ops).

(** With a client for [addr] there is at most one creation more than
    closings; without, at most as many. *)
Definition balanced (addr : string) (st : AVP * list Call) (n : nat) : Prop :=
  (creations addr (snd st)
   + match lookup addr (clients (fst st)) with
     | Some _ => 0
     | None => 1
     end <= n + 1)%nat.

End WithClients.
End Avp.

(** ** Properties *)

Section BuilderProperties.

Context {SB : SampleBuilderAPI}.

Lemma app_nil_end (A : Type) (l : list A) : l = l ++ [].
Proof. now rewrite app_nil_r. Qed.

(** A transition that adds no event and changes none of [stopped],
    [elements] and [sequence]. *)
Ltac silent_step :=
  exists []; split; [apply app_nil_end|];
  apply (eff_silent _ _ []); simpl; auto using app_nil_end.

Lemma stop_effect (s : Sys) :
  coherent s ->
  stopped (self s) = false ->
  coherent (stop s) /\
  panicked (stop s) = panicked s /\
  pc_build (stop s) = pc_build s /\
  pc_forward (stop s) = pc_forward s /\
  onStopHandler (self (stop s)) = onStopHandler (self s) /\
  trace (stop s) =
    trace s ++ teardown_of (elements (self s)) (onStopHandler (self s)) /\
  effect (self s) (teardown_of (elements (self s)) (onStopHandler (self s)))
         (self (stop s)).
Proof.
  unfold coherent, stop, chan_close. intros Hc Hs.
  rewrite Hs. rewrite Hc, Hs.
  destruct (onStopHandler (self s)) eqn:Hh; simpl;
    unfold teardown_of; simpl; rewrite <- ?app_assoc; simpl;
    (repeat split; try reflexivity; try assumption);
    match goal with
    | |- effect _ _ ?b' =>
        generalize (eff_teardown (self s) b'); rewrite Hh; unfold teardown_of;
        simpl; intro E; apply E; simpl; auto
    end.
Qed.

Lemma stop_stopped (s : Sys) :
  stopped (self s) = true -> stop s = s.
Proof. unfold stop. now intros ->. Qed.

Lemma step_effect (a : Action) (s s' : Sys) :
  coherent s ->
  step a s = Some s' ->
  coherent s' /\
  exists evs, trace s' = trace s ++ evs /\ effect (self s) evs (self s').
Proof.
  intros Hc H.
  unfold step in H. destruct (panicked s) eqn:Hp; [discriminate|].
  destruct a as [r|results|e|f| |].
  - (* build *)
    unfold build_step in H.
    destruct (pc_build s) eqn:Hpc.
    + destruct (stopped (self s)); inversion H; subst; split; auto;
        silent_step.
    + destruct r as [pkt|[|msg]]; inversion H; subst; clear H; split; auto.
      * silent_step.
      * silent_step.
      * eexists; split; [reflexivity|]. apply eff_log; reflexivity.
    + inversion H; subst; clear H.
      destruct (stopped (self s)) eqn:Hs.
      * rewrite stop_stopped by assumption. split; auto.
        silent_step.
      * destruct (stop_effect s Hc Hs) as (Hc' & _ & _ & _ & _ & Htr & Heff).
        split; [exact Hc'|].
        eexists; split; [exact Htr|exact Heff].
    + destruct (sb_PopWithTimestamp (builder (self s))) as [[sm ts] sb'].
      inversion H; subst; clear H. split; auto.
      silent_step.
    + destruct (stopped (self s)); [|destruct sample]; inversion H; subst;
        (split; auto); silent_step.
    + unfold chan_send in H.
      destruct (closed (out (self s))) eqn:Hcl.
      * inversion H; subst; clear H. split; auto.
        silent_step.
      * destruct (List.length (buf (out (self s))) <? cap (out (self s)))%nat;
          [|discriminate].
        inversion H; subst; clear H. unfold coherent in *; simpl.
        split; [congruence|].
        eexists; split; [reflexivity|]. apply eff_send; reflexivity.
    + discriminate.
  - (* forward *)
    unfold forward_step in H.
    destruct (pc_forward s) eqn:Hpc.
    + unfold chan_recv in H.
      destruct (buf (out (self s))) eqn:Hb.
      * destruct (closed (out (self s))) eqn:Hcl; [|discriminate].
        inversion H; subst; clear H. unfold coherent in *; simpl.
        split; [congruence|].
        silent_step.
      * inversion H; subst; clear H. unfold coherent in *; simpl.
        split; [congruence|].
        silent_step.
    + destruct (stopped (self s)) eqn:Hs; inversion H; subst; clear H;
        (split; auto).
      * silent_step.
      * eexists; split; [reflexivity|]. apply eff_dispatch; auto.
    + discriminate.
  - inversion H; subst; clear H. split; auto.
    exists []; split; auto using app_nil_end.
    apply (eff_silent _ _ [e]); reflexivity.
  - inversion H; subst; clear H. split; auto.
    silent_step.
  - inversion H; subst; clear H.
    destruct (stopped (self s)) eqn:Hs.
    + rewrite stop_stopped by assumption. split; auto.
      silent_step.
    + destruct (stop_effect s Hc Hs) as (Hc' & _ & _ & _ & _ & Htr & Heff).
      split; [exact Hc'|]. eexists; split; [exact Htr|exact Heff].
  - inversion H; subst; clear H. split; auto.
    silent_step.
Qed.

(** *** Invariants of runs *)

Lemma NewBuilder_coherent (t : webrtc_Track) (maxLate : Z) :
  coherent (NewBuilder t maxLate).
Proof. reflexivity. Qed.

(** A property of the builder and the trace that every kind of
    transition keeps holds along every run. *)
Lemma run_invariant (J : Builder -> list Event -> Prop) :
  (forall b tr evs b', J b tr -> effect b evs b' -> J b' (tr ++ evs)) ->
  forall acts s s',
    coherent s -> J (self s) (trace s) -> run acts s = Some s' ->
    coherent s' /\ J (self s') (trace s').
Proof.
  intros HJ acts. induction acts as [|a acts IH]; intros s s' Hc Hj Hrun.
  - inversion Hrun; subst. auto.
  - simpl in Hrun. destruct (step a s) as [s1|] eqn:Hstep; [|discriminate].
    destruct (step_effect a s s1 Hc Hstep) as (Hc1 & evs & Htr & Heff).
    apply (IH s1 s'); auto. rewrite Htr. eapply HJ; eauto.
Qed.

Lemma run_app (acts1 acts2 : list Action) (s : Sys) :
  run (acts1 ++ acts2) s =
  match run acts1 s with
  | Some s1 => run acts2 s1
  | None => None
  end.
Proof.
  revert s. induction acts1 as [|a acts1 IH]; intros s; simpl; auto.
  destruct (step a s); auto.
Qed.

(** **** Facts about the two blocks of events *)

Lemma write_all_no_teardown es sample results :
  Forall (fun ev => is_teardown ev = false) (write_all es sample results).
Proof.
  revert results. induction es as [|e es IH]; intros results; simpl.
  - constructor.
  - constructor; [reflexivity|].
    apply Forall_app. split; [|apply IH].
    destruct (hd None results); repeat constructor.
Qed.

Lemma teardown_of_no_write es f :
  Forall (fun ev => is_write ev = false) (teardown_of es f).
Proof.
  unfold teardown_of. apply Forall_app. split.
  - induction es; simpl; constructor; auto.
  - destruct f; repeat constructor.
Qed.

Lemma filter_none (A : Type) (p : A -> bool) (l : list A) :
  Forall (fun x => p x = false) l -> filter p l = [].
Proof.
  induction 1 as [|x l Hx _ IH]; simpl; auto. now rewrite Hx.
Qed.

Lemma filter_all (A : Type) (p : A -> bool) (l : list A) :
  Forall (fun x => p x = true) l -> filter p l = l.
Proof.
  induction 1 as [|x l Hx _ IH]; simpl; auto. rewrite Hx. now f_equal.
Qed.

Lemma teardown_of_all_teardown es f :
  Forall (fun ev => is_teardown ev = true) (teardown_of es f).
Proof.
  unfold teardown_of. apply Forall_app. split.
  - induction es; simpl; constructor; auto.
  - destruct f; repeat constructor.
Qed.

Lemma sent_app (tr1 tr2 : list Event) :
  sent (tr1 ++ tr2) = sent tr1 ++ sent tr2.
Proof.
  induction tr1 as [|ev tr1 IH]; simpl; auto.
  destruct ev; simpl; auto. now f_equal.
Qed.

Lemma sent_write_all es sample results :
  sent (write_all es sample results) = [].
Proof.
  revert results. induction es as [|e es IH]; intros results; simpl; auto.
  rewrite sent_app, IH. destruct (hd None results); reflexivity.
Qed.

Lemma sent_teardown_of es f : sent (teardown_of es f) = [].
Proof.
  unfold teardown_of. rewrite sent_app.
  replace (sent (map EvClose es)) with (@nil Sample)
    by (induction es; simpl; auto).
  destruct f; reflexivity.
Qed.

Lemma callee_write_all es sample results ev e :
  In ev (write_all es sample results) -> callee ev = Some e -> In e es.
Proof.
  revert results. induction es as [|e0 es IH]; intros results Hin Hc; simpl in *.
  - contradiction.
  - destruct Hin as [<-|Hin].
    + inversion Hc; auto.
    + apply in_app_or in Hin. destruct Hin as [Hin|Hin].
      * destruct (hd None results); simpl in Hin; [|contradiction].
        destruct Hin as [<-|[]]. discriminate.
      * right. eapply IH; eauto.
Qed.

Lemma callee_teardown_of es f ev e :
  In ev (teardown_of es f) -> callee ev = Some e -> In e es.
Proof.
  unfold teardown_of. intros Hin Hc.
  apply in_app_or in Hin. destruct Hin as [Hin|Hin].
  - apply in_map_iff in Hin. destruct Hin as (e' & <- & Hin).
    inversion Hc; subst; auto.
  - destruct f; simpl in Hin; intuition subst; discriminate.
Qed.

(** Once the builder is stopped, a transition keeps it stopped and adds
    neither a [Write] nor an effect of teardown. *)
Lemma effect_stopped b evs b' :
  effect b evs b' -> stopped b = true ->
  stopped b' = true /\ Forall quiet evs.
Proof.
  intros Heff Hs. destruct Heff as [b' H0 | b' sm rs H0 | b' v H0 _ _ _
                                   | b' msg H0 _ _ | b' more H0 _ _];
    try congruence; (split; [congruence|]); repeat constructor.
Qed.

Lemma effect_elements b evs b' :
  effect b evs b' -> exists more, elements b' = elements b ++ more.
Proof.
  destruct 1 as [b' _ _ He _ | b' sm rs _ _ He _ | b' v _ He _ _
                | b' msg _ He _ | b' more _ He _];
    try (exists []; rewrite app_nil_r; exact He).
  exists more; exact He.
Qed.

Lemma run_stopped (acts : list Action) (s s' : Sys) :
  coherent s -> stopped (self s) = true -> run acts s = Some s' ->
  stopped (self s') = true /\
  exists evs, trace s' = trace s ++ evs /\ Forall quiet evs.
Proof.
  revert s. induction acts as [|a acts IH]; intros s Hc Hs Hrun.
  - inversion Hrun; subst. split; auto. exists []; split; auto using app_nil_end.
  - simpl in Hrun. destruct (step a s) as [s1|] eqn:Hstep; [|discriminate].
    destruct (step_effect a s s1 Hc Hstep) as (Hc1 & evs & Htr & Heff).
    destruct (effect_stopped _ _ _ Heff Hs) as (Hs1 & Hq).
    destruct (IH s1 Hc1 Hs1 Hrun) as (Hs' & evs' & Htr' & Hq').
    split; auto. exists (evs ++ evs'); split.
    + rewrite Htr', Htr, app_assoc. reflexivity.
    + apply Forall_app; auto.
Qed.

Lemma reachable_coherent t maxLate s :
  reachable t maxLate s -> coherent s.
Proof.
  intros (acts & Hrun).
  apply (run_invariant (fun _ _ => True)) in Hrun; auto.
  - tauto.
  - apply NewBuilder_coherent.
Qed.

(** **** The effects of teardown occur as one block, at most once *)

Lemma teardown_once_effect b tr evs b' :
  teardown_once b tr -> effect b evs b' -> teardown_once b' (tr ++ evs).
Proof.
  unfold teardown_once. intros Hj Heff.
  destruct Heff as [b' H0 H1 He _ | b' sm rs H0 H1 He _ | b' v H0 He _ _
                   | b' msg H0 He _ | b' more H0 He _].
  - rewrite H0 in Hj. rewrite H1.
    exists (elements b), (onStopHandler b), [].
    split; [now rewrite He, app_nil_r|].
    rewrite filter_app, Hj. simpl.
    apply filter_all, teardown_of_all_teardown.
  - rewrite H0 in Hj. rewrite H1.
    rewrite filter_app, Hj. simpl.
    apply filter_none, write_all_no_teardown.
  - rewrite H0. rewrite filter_app. simpl. rewrite app_nil_r.
    destruct (stopped b); [|exact Hj].
    destruct Hj as (es & f & more & Hel & Hf).
    exists es, f, more. split; congruence.
  - rewrite H0. rewrite filter_app. simpl. rewrite app_nil_r.
    destruct (stopped b); [|exact Hj].
    destruct Hj as (es & f & more & Hel & Hf).
    exists es, f, more. split; congruence.
  - rewrite H0. rewrite app_nil_r.
    destruct (stopped b); [|exact Hj].
    destruct Hj as (es & f & more0 & Hel & Hf).
    exists es, f, (more0 ++ more). split; [|exact Hf].
    rewrite He, Hel, app_assoc. reflexivity.
Qed.

(** **** Every [Write] precedes every effect of teardown *)

Lemma writes_then_teardown_effect b tr evs b' :
  writes_then_teardown b tr -> effect b evs b' ->
  writes_then_teardown b' (tr ++ evs).
Proof.
  intros (pre & post & -> & Hpre & Hpost & Hns) Heff.
  destruct (stopped b) eqn:Hs.
  - destruct (effect_stopped _ _ _ Heff Hs) as (Hs' & Hq).
    exists pre, (post ++ evs). rewrite app_assoc. repeat split; auto.
    + apply Forall_app. split; auto.
      eapply Forall_impl; [|exact Hq]. intros ev [Hw _]; exact Hw.
    + congruence.
  - rewrite (Hns eq_refl). rewrite app_nil_r.
    destruct Heff as [b' _ H1 _ _ | b' sm rs _ H1 _ _ | b' v H1 _ _ _
                     | b' msg H1 _ _ | b' more H1 _ _].
    + exists pre, (teardown_of (elements b) (onStopHandler b)).
      repeat split; auto using teardown_of_no_write. congruence.
    + exists (pre ++ write_all (elements b) sm rs), [].
      rewrite app_nil_r. repeat split; auto.
      apply Forall_app; auto using write_all_no_teardown.
    + exists (pre ++ [EvSend v]), []. rewrite app_nil_r. repeat split; auto.
      apply Forall_app; split; auto.
    + exists (pre ++ [EvLogError msg]), []. rewrite app_nil_r.
      repeat split; auto. apply Forall_app; split; auto.
    + exists pre, []. repeat split; auto.
Qed.

(** In a list cut at an element that [pre] cannot hold, the rest of the
    cut lies in [post]. *)
Lemma cut_in_post (A : Type) (P : A -> Prop) (pre post l1 l2 : list A) (x : A) :
  pre ++ post = l1 ++ x :: l2 -> Forall P pre -> ~ P x ->
  exists l, post = l ++ x :: l2.
Proof.
  intros Heq Hpre Hx.
  apply app_eq_app in Heq. destruct Heq as (l & [[H1 H2]|[H1 H2]]).
  - destruct l as [|y l].
    + exists []. simpl in *. auto.
    + simpl in H2. inversion H2; subst.
      apply Forall_app in Hpre. destruct Hpre as [_ Hpre].
      inversion Hpre; subst. contradiction.
  - exists l. exact H2.
Qed.

(** **** The emission counter counts the samples sent, modulo 2^16 *)

Lemma uint16_incr_nth (k : nat) :
  uint16_incr (nth_sequence k) = nth_sequence (S k).
Proof.
  unfold uint16_incr, nth_sequence, uint16_modulus.
  rewrite Nat2Z.inj_succ, Z.add_mod_idemp_l by lia.
  f_equal.
Qed.

Lemma counts_sent_effect b tr evs b' :
  counts_sent b tr -> effect b evs b' -> counts_sent b' (tr ++ evs).
Proof.
  unfold counts_sent. intros [Hseq Hmap] Heff.
  destruct Heff as [b' _ _ _ Hq | b' sm rs _ _ _ Hq | b' v _ _ Hv Hq
                   | b' msg _ _ Hq | b' more _ _ Hq];
    rewrite sent_app.
  - rewrite sent_teardown_of, app_nil_r. split; congruence.
  - rewrite sent_write_all, app_nil_r. split; congruence.
  - change (sent [EvSend v]) with [v].
    rewrite length_app. change (List.length [v]) with 1%nat.
    rewrite Nat.add_1_r. split.
    + rewrite Hq, Hseq. apply uint16_incr_nth.
    + rewrite seq_S, !map_app. simpl. rewrite Hmap, Hv, Hseq. reflexivity.
  - simpl. rewrite app_nil_r. split; congruence.
  - simpl. rewrite app_nil_r. split; congruence.
Qed.

Lemma run_counts_sent t maxLate acts s :
  run acts (NewBuilder t maxLate) = Some s ->
  counts_sent (self s) (trace s).
Proof.
  intros Hrun.
  apply (run_invariant counts_sent) in Hrun.
  - tauto.
  - exact counts_sent_effect.
  - apply NewBuilder_coherent.
  - split; reflexivity.
Qed.

(** **** Only attached elements are called *)

Lemma calls_attached_effect b tr evs b' :
  calls_attached b tr -> effect b evs b' -> calls_attached b' (tr ++ evs).
Proof.
  unfold calls_attached. intros Hj Heff ev e Hin Hc.
  destruct (effect_elements _ _ _ Heff) as (more & ->).
  apply in_or_app. left.
  apply in_app_or in Hin. destruct Hin as [Hin|Hin]; [eauto|].
  destruct Heff as [b' _ _ _ _ | b' sm rs _ _ _ _ | b' v _ _ _ _
                   | b' msg _ _ _ | b' more' _ _ _].
  - eapply callee_teardown_of; eauto.
  - eapply callee_write_all; eauto.
  - destruct Hin as [<-|[]]. discriminate.
  - destruct Hin as [<-|[]]. discriminate.
  - contradiction.
Qed.

Lemma run_calls_attached t maxLate acts s :
  run acts (NewBuilder t maxLate) = Some s ->
  calls_attached (self s) (trace s).
Proof.
  intros Hrun.
  apply (run_invariant calls_attached) in Hrun.
  - tauto.
  - exact calls_attached_effect.
  - apply NewBuilder_coherent.
  - intros ev e [].
Qed.

(** *** Teardown *)

(** C1. Teardown is idempotent and happens once.  In every state an
    engine can reach: [stop] on a stopped builder changes nothing;
    otherwise it sets [stopped], calls [Close] once on each attached
    element in attachment order, then the stop handler if one is
    registered, then closes [out], and a second [stop] changes nothing.
    Whatever the run was and however many goroutines triggered [stop] in
    it, the effects of teardown in the trace are none (not stopped) or
    exactly that one block, for the elements attached when it ran. *)
Theorem stop_tears_down_once (t : webrtc_Track) (maxLate : Z)
    (acts : list Action) (s : Sys) :
  run acts (NewBuilder t maxLate) = Some s ->
  (stopped (self s) = true -> stop s = s) /\
  (stopped (self s) = false ->
     stopped (self (stop s)) = true /\
     trace (stop s) =
       trace s ++ map EvClose (elements (self s))
               ++ handler_events (onStopHandler (self s)) ++ [EvCloseOut] /\
     closed (out (self (stop s))) = true /\
     panicked (stop s) = panicked s /\
     stop (stop s) = stop s) /\
  (if stopped (self s)
   then exists es f more,
          elements (self s) = es ++ more /\
          filter is_teardown (trace s) =
            map EvClose es ++ handler_events f ++ [EvCloseOut]
   else filter is_teardown (trace s) = []).
Proof.
  intros Hrun.
  apply (run_invariant teardown_once) in Hrun;
    [ | exact teardown_once_effect | apply NewBuilder_coherent | reflexivity ].
  destruct Hrun as [Hc Hj]. split; [apply stop_stopped|]. split; [|exact Hj].
  intros Hs.
  destruct (stop_effect s Hc Hs) as (Hc' & Hp & _ & _ & _ & Htr & Heff).
  assert (Hs' : stopped (self (stop s)) = true).
  { unfold stop. rewrite Hs. unfold chan_close.
    destruct (closed (out (self s))), (onStopHandler (self s)); reflexivity. }
  repeat split; auto.
  - unfold coherent in Hc'. congruence.
  - apply stop_stopped. exact Hs'.
Qed.

(** *** Writes and teardown *)

(** C5. In every run, no [Write] call follows a [Close] call; and once
    the builder is stopped, whatever runs afterwards adds no [Write]:
    the dispatch pass that finds [stopped] set returns without writing. *)
Theorem no_write_after_close (t : webrtc_Track) (maxLate : Z)
    (acts : list Action) (s : Sys) :
  run acts (NewBuilder t maxLate) = Some s ->
  (forall tr1 e tr2,
     trace s = tr1 ++ EvClose e :: tr2 ->
     Forall (fun ev => is_write ev = false) tr2) /\
  (stopped (self s) = true ->
   forall acts' s',
     run acts' s = Some s' ->
     exists evs, trace s' = trace s ++ evs /\
                 Forall (fun ev => is_write ev = false) evs).
Proof.
  intros Hrun.
  apply (run_invariant writes_then_teardown) in Hrun;
    [ | exact writes_then_teardown_effect | apply NewBuilder_coherent | ].
  2:{ exists [], []. repeat split; auto. }
  destruct Hrun as [Hc (pre & post & Htr & Hpre & Hpost & _)]. split.
  - intros tr1 e tr2 Heq. rewrite Htr in Heq.
    destruct (cut_in_post _ _ _ _ _ _ _ Heq Hpre) as (l & ->).
    + simpl. discriminate.
    + apply Forall_app in Hpost. destruct Hpost as [_ Hpost].
      inversion Hpost; auto.
  - intros Hs acts' s' Hrun'.
    destruct (run_stopped acts' s s' Hc Hs Hrun') as (_ & evs & Hevs & Hq).
    exists evs. split; auto.
    eapply Forall_impl; [|exact Hq]. intros ev [Hw _]; exact Hw.
Qed.

(** *** The [stopped] flag *)

Lemma step_stopped (a : Action) (s s' : Sys) :
  step a s = Some s' -> stopped (self s) = true -> stopped (self s') = true.
Proof.
  intros H Hs. unfold step in H.
  destruct (panicked s); [discriminate|].
  destruct a; simpl in H.
  - unfold build_step in H. rewrite ?Hs in H.
    destruct (pc_build s); try rewrite stop_stopped in H by assumption;
      try (inversion H; subst; simpl; assumption).
    + destruct r as [pkt|[|msg]]; inversion H; subst; simpl; assumption.
    + destruct (sb_PopWithTimestamp (builder (self s))) as [[sm ts] sb'].
      inversion H; subst; simpl; assumption.
    + destruct (chan_send _ _); inversion H; subst; simpl; assumption.
  - unfold forward_step in H. rewrite ?Hs in H.
    destruct (pc_forward s); try (inversion H; subst; simpl; assumption).
    destruct (chan_recv _); inversion H; subst; simpl; assumption.
  - inversion H; subst; simpl; assumption.
  - inversion H; subst; simpl; assumption.
  - rewrite stop_stopped in H by assumption. inversion H; subst; assumption.
  - inversion H; subst; assumption.
Qed.

(** C6. [stopped] is monotone: from any state in which it is set, every
    sequence of transitions (attach, OnStop, steps of [build] and of
    [forward], stop, stats) ends in a state in which it is set. *)
Theorem stopped_is_monotone (acts : list Action) (s s' : Sys) :
  stopped (self s) = true ->
  run acts s = Some s' ->
  stopped (self s') = true.
Proof.
  revert s. induction acts as [|a acts IH]; intros s Hs Hrun.
  - inversion Hrun; subst; assumption.
  - simpl in Hrun. destruct (step a s) as [s1|] eqn:Hstep; [|discriminate].
    apply (IH s1); auto. eapply step_stopped; eauto.
Qed.

(** *** Emission sequence numbers *)

(** C2 (as the code has it).  The emission sequence numbers of the
    samples handed to [out] start at 0 and advance by one per sample in
    [uint16] arithmetic: the k-th sample sent (from 0) carries
    [k mod 65536], whatever the transport sequence numbers of the packets
    were. *)
Theorem emission_sequence_counts_mod_uint16 (t : webrtc_Track) (maxLate : Z)
    (acts : list Action) (s : Sys) :
  run acts (NewBuilder t maxLate) = Some s ->
  map SequenceNumber (sent (trace s)) =
  map nth_sequence (seq 0 (List.length (sent (trace s)))).
Proof.
  intros Hrun. apply (run_counts_sent t maxLate acts s Hrun).
Qed.

(** *** Codec selection *)

Lemma select_codec_unknown (name : string) :
  name <> Opus -> name <> VP8 -> name <> VP9 -> name <> H264 ->
  select_codec name = (None, None).
Proof.
  intros H1 H2 H3 H4. unfold select_codec.
  apply String.eqb_neq in H1, H2, H3, H4.
  now rewrite H1, H2, H3, H4.
Qed.

Lemma stop_sets_stopped (s : Sys) : stopped (self (stop s)) = true.
Proof.
  unfold stop. destruct (stopped (self s)) eqn:Hs; [exact Hs|].
  destruct (onStopHandler (self s)), (chan_close (out (self s))); reflexivity.
Qed.

Lemma NewBuilder_unknown_codec (t : webrtc_Track) (maxLate : Z) :
  select_codec (Name (Codec t)) = (None, None) ->
  builder (self (NewBuilder t maxLate)) = sb_New maxLate None.
Proof. unfold NewBuilder. intros ->. reflexivity. Qed.

(** C3, at a codec outside the four of the [switch]: [depacketizer] and
    [checker] are still nil after it, and nil is the depacketizer given
    to [samplebuilder.New]; no checker is installed. *)
Theorem NewBuilder_unknown_codec_binds_nil :
  select_codec (Name (Codec pcmu_track)) = (None, None) /\
  builder (self (NewBuilder pcmu_track 50)) = sb_New 50%Z None.
Proof. split; reflexivity. Qed.

(** *** The send in [build] and the close in [stop] *)

(** With [build] about to send, a [stop] from any other goroutine
    followed by the send ends in a panic. *)
Lemma stop_then_send_panics (s s' : Sys) (sample : media_Sample)
    (timestamp : Z) (r : ReadResult) :
  coherent s ->
  pc_build s = BSend sample timestamp ->
  run [ActStop; ActBuild r] s = Some s' ->
  panicked s' = true.
Proof.
  intros Hc Hpc Hrun. simpl in Hrun. unfold step at 1 in Hrun.
  destruct (panicked s) eqn:Hp; [discriminate|].
  assert (Hcl : closed (out (self (stop s))) = true).
  { destruct (stopped (self s)) eqn:Hs.
    - rewrite stop_stopped by exact Hs. unfold coherent in Hc. congruence.
    - destruct (stop_effect s Hc Hs) as (Hc' & _).
      unfold coherent in Hc'. rewrite Hc'. apply stop_sets_stopped. }
  assert (Hpc' : pc_build (stop s) = BSend sample timestamp).
  { destruct (stopped (self s)) eqn:Hs.
    - rewrite stop_stopped by exact Hs. exact Hpc.
    - destruct (stop_effect s Hc Hs) as (_ & _ & Hb & _). congruence. }
  unfold step in Hrun. destruct (panicked (stop s)) eqn:Hp'; [discriminate|].
  unfold build_step in Hrun. rewrite Hpc' in Hrun.
  unfold chan_send in Hrun. rewrite Hcl in Hrun.
  inversion Hrun; subst. reflexivity.
Qed.

(** *** The read-error policy of [build] *)

Lemma step_other_pc_build (a : Action) (s s' : Sys) :
  is_build a = false -> step a s = Some s' ->
  pc_build s' = pc_build s /\ panicked s = false.
Proof.
  intros Ha H. unfold step in H.
  destruct (panicked s); [discriminate|]. split; [|reflexivity].
  destruct a; try discriminate Ha; simpl in H.
  - unfold forward_step in H.
    destruct (pc_forward s); [destruct (chan_recv _)|destruct (stopped _)|];
      inversion H; subst; reflexivity.
  - inversion H; subst; reflexivity.
  - inversion H; subst; reflexivity.
  - inversion H; subst. unfold stop.
    destruct (stopped (self s)); auto.
    destruct (onStopHandler (self s)), (chan_close (out (self s))); reflexivity.
  - inversion H; subst; reflexivity.
Qed.

Lemma run_others_pc_build (others : list Action) (s s' : Sys) :
  forallb (fun a => negb (is_build a)) others = true ->
  run others s = Some s' ->
  pc_build s' = pc_build s.
Proof.
  revert s. induction others as [|a others IH]; intros s Hall Hrun.
  - inversion Hrun; subst; reflexivity.
  - simpl in Hall, Hrun. apply andb_prop in Hall. destruct Hall as [Ha Hall].
    destruct (step a s) as [s1|] eqn:Hstep; [|discriminate].
    apply negb_true_iff in Ha.
    destruct (step_other_pc_build a s s1 Ha Hstep) as [Hpc _].
    rewrite <- Hpc. apply IH; auto.
Qed.



(** *** Dispatch *)

Lemma write_all_writes es sample results :
  filter is_write (write_all es sample results) =
  map (fun e => EvWrite e sample) es.
Proof.
  revert results. induction es as [|e es IH]; intros results; simpl; auto.
  f_equal. rewrite filter_app, IH.
  destruct (hd None results); reflexivity.
Qed.

Lemma write_all_logs es sample results :
  filter is_log (write_all es sample results) =
  map (fun err => EvLogError ("error writing sample: " ++ Error err)%string)
      (write_errors (List.length es) results).
Proof.
  revert results. induction es as [|e es IH]; intros results; simpl; auto.
  rewrite filter_app, map_app, IH.
  destruct (hd None results); reflexivity.
Qed.

(** C8. A dispatch pass on a builder that is not stopped calls [Write]
    on every attached element, in attachment order and with the same
    sample, whatever the calls return; each failure adds one error log;
    and the pass ends with [forward] back at its receive, not stopped and
    not panicked. *)
Theorem write_failure_is_isolated (s : Sys) (sample : option Sample)
    (results : list (option error)) :
  pc_forward s = FDispatch sample ->
  stopped (self s) = false ->
  panicked s = false ->
  exists s',
    step (ActForward results) s = Some s' /\
    trace s' = trace s ++ write_all (elements (self s)) sample results /\
    filter is_write (write_all (elements (self s)) sample results) =
      map (fun e => EvWrite e sample) (elements (self s)) /\
    filter is_log (write_all (elements (self s)) sample results) =
      map (fun err => EvLogError ("error writing sample: " ++ Error err)%string)
          (write_errors (List.length (elements (self s))) results) /\
    pc_forward s' = FRecv /\
    self s' = self s /\
    panicked s' = false.
Proof.
  intros Hpc Hs Hp. eexists. split.
  - unfold step. rewrite Hp. unfold forward_step. rewrite Hpc, Hs. reflexivity.
  - simpl. repeat split; auto using write_all_writes, write_all_logs.
Qed.


(** *** Attachment *)

(** C10. In a state the engine has reached with the builder stopped (and
    the process alive), [AttachElement] goes through and appends the
    element; whatever runs afterwards adds neither a [Write] nor a
    [Close] for any element, so an element that was not attached before
    is never written to and never closed. *)
Theorem attach_after_stop (t : webrtc_Track) (maxLate : Z)
    (acts1 : list Action) (s1 : Sys) (e : Element) :
  run acts1 (NewBuilder t maxLate) = Some s1 ->
  stopped (self s1) = true ->
  panicked s1 = false ->
  exists s1',
    step (ActAttachElement e) s1 = Some s1' /\
    elements (self s1') = elements (self s1) ++ [e] /\
    forall acts2 s2,
      run acts2 s1' = Some s2 ->
      (exists evs, trace s2 = trace s1 ++ evs /\ Forall quiet evs) /\
      (~ In e (elements (self s1)) ->
       forall ev, In ev (trace s2) -> callee ev <> Some e).
Proof.
  intros Hrun Hs Hp.
  assert (Hc : coherent s1) by (eapply reachable_coherent; eexists; eauto).
  eexists. split; [unfold step; rewrite Hp; reflexivity|].
  split; [reflexivity|].
  intros acts2 s2 Hrun2.
  destruct (run_stopped acts2 (with_self (AttachElement e (self s1)) s1) s2
              Hc Hs Hrun2) as (_ & evs & Htr & Hq).
  simpl in Htr. split; [eauto|].
  intros Hnot ev Hin Hcallee. rewrite Htr in Hin.
  apply in_app_or in Hin. destruct Hin as [Hin|Hin].
  - apply Hnot. eapply (run_calls_attached t maxLate acts1 s1 Hrun); eauto.
  - rewrite Forall_forall in Hq. destruct (Hq ev Hin) as [Hw Htd].
    destruct ev; simpl in *; discriminate.
Qed.

End BuilderProperties.

(** ** The model at work *)

Lemma nth_map_seq (f : nat -> Z) (k n : nat) (d : Z) :
  (k < n)%nat -> nth k (map f (seq 0 n)) d = f k.
Proof.
  intros Hk.
  rewrite (nth_indep _ d (f 0%nat)) by (rewrite length_map, length_seq; exact Hk).
  rewrite map_nth, seq_nth by exact Hk. reflexivity.
Qed.

Lemma one_sample_idle (q : Z) (tr : list Event) :
  exists tr',
    run one_sample (idle q tr) = Some (idle (uint16_incr q) tr') /\
    List.length (sent tr') = S (List.length (sent tr)).
Proof.
  exists ((tr ++ [EvSend {| Type_ := 111; SequenceNumber := q; Timestamp := 960;
                            Payload := [x01; x02]; TrackID := "audio0" |}]) ++ []).
  split; [reflexivity|].
  rewrite app_nil_r, sent_app, length_app. simpl. lia.
Qed.

Lemma samples_idle (n : nat) :
  forall q tr,
  exists q' tr',
    run (samples n) (idle q tr) = Some (idle q' tr') /\
    List.length (sent tr') = (List.length (sent tr) + n)%nat.
Proof.
  induction n as [|n IH]; intros q tr.
  - exists q, tr. split; [reflexivity|lia].
  - destruct (one_sample_idle q tr) as (tr1 & Hrun1 & Hlen1).
    destruct (IH (uint16_incr q) tr1) as (q' & tr' & Hrun & Hlen).
    exists q', tr'. split; [|lia].
    change (samples (S n)) with (one_sample ++ samples n).
    rewrite run_app, Hrun1. exact Hrun.
Qed.

(** C2, as stated, fails on the code: sixty-five thousand five hundred
    thirty-seven packets, each a sample, through a fresh builder.  The
    sample after the one numbered 65535 is numbered 0. *)
Lemma emission_sequence_wraps :
  exists s,
    run (samples (Z.to_nat 65537)) (NewBuilder opus_track 50) = Some s /\
    nth (Z.to_nat 65535) (map SequenceNumber (sent (trace s))) (-1)%Z = 65535%Z /\
    nth (Z.to_nat 65536) (map SequenceNumber (sent (trace s))) (-1)%Z = 0%Z.
Proof.
  destruct (samples_idle (Z.to_nat 65537) 0%Z []) as (q' & tr' & Hrun & Hlen).
  exists (idle q' tr'). split; [exact Hrun|].
  destruct (run_counts_sent opus_track 50 _ _ Hrun) as [_ Hmap].
  change (trace (idle q' tr')) with tr' in *.
  rewrite Hmap, Hlen. change (List.length (sent [])) with 0%nat.
  rewrite !nth_map_seq by lia.
  unfold nth_sequence. rewrite !Z2Nat.id by lia. split; reflexivity.
Qed.

(** Two packets through a fresh builder: the samples are numbered 0 and
    1, as [emission_sequence_counts_mod_uint16] says. *)
Lemma emission_sequence_counts_two :
  run two_samples_run (NewBuilder opus_track 50) = Some two_samples_state /\
  map SequenceNumber (sent (trace two_samples_state)) =
    map nth_sequence (seq 0 (List.length (sent (trace two_samples_state)))) /\
  map SequenceNumber (sent (trace two_samples_state)) = [0; 1]%Z.
Proof.
  assert (H : run two_samples_run (NewBuilder opus_track 50)
              = Some two_samples_state) by reflexivity.
  split; [exact H|]. split; [|reflexivity].
  exact (emission_sequence_counts_mod_uint16 opus_track 50 _ _ H).
Defined.

(** The run in which [stop] is triggered twice, by the end of the track
    and from outside: one [Close] per element, one handler call, one
    [close(b.out)]. *)
Lemma stop_tears_down_once_two_paths :
  run two_stop_run (NewBuilder opus_track 50) = Some stopped_state /\
  stop stopped_state = stopped_state /\
  (exists es f more,
     elements (self stopped_state) = es ++ more /\
     filter is_teardown (trace stopped_state) =
       map EvClose es ++ handler_events f ++ [EvCloseOut]) /\
  filter is_teardown (trace stopped_state) =
    [EvClose recorder; EvClose analyzer; EvOnStop 5%nat; EvCloseOut].
Proof.
  assert (H : run two_stop_run (NewBuilder opus_track 50) = Some stopped_state)
    by reflexivity.
  split; [exact H|].
  destruct (stop_tears_down_once opus_track 50 two_stop_run stopped_state H)
    as (H1 & _ & H3).
  split; [apply H1; reflexivity|]. split; [exact H3|reflexivity].
Defined.

(** C4, failing run: [build] reads [stopped] (false), [stop] closes
    [out], [build] sends on the closed channel and the process panics. *)
Theorem send_after_close_panics :
  exists s,
    run race_run (NewBuilder opus_track 50) = Some s /\
    pc_build s = BSend {| Data := [x01; x02] |} 960 /\
    closed (out (self s)) = true /\
    panicked s = true.
Proof. eexists. repeat split. Qed.

(** The run of [two_stop_run] has its two [Write] calls before its two
    [Close] calls, and nothing is written after it. *)
Lemma no_write_after_close_two_paths :
  run two_stop_run (NewBuilder opus_track 50) = Some stopped_state /\
  (forall tr1 e tr2,
     trace stopped_state = tr1 ++ EvClose e :: tr2 ->
     Forall (fun ev => is_write ev = false) tr2) /\
  (stopped (self stopped_state) = true ->
   forall acts' s',
     run acts' stopped_state = Some s' ->
     exists evs, trace s' = trace stopped_state ++ evs /\
                 Forall (fun ev => is_write ev = false) evs).
Proof.
  assert (H : run two_stop_run (NewBuilder opus_track 50) = Some stopped_state)
    by reflexivity.
  split; [exact H|].
  exact (no_write_after_close opus_track 50 two_stop_run stopped_state H).
Defined.

(** [stopped] stays set through an attach, a handler registration, a
    stats report and another stop. *)
Lemma stopped_is_monotone_late :
  stopped (self stopped_state) = true /\
  run late_run stopped_state = Some late_state /\
  stopped (self late_state) = true.
Proof.
  assert (H1 : stopped (self stopped_state) = true) by reflexivity.
  assert (H2 : run late_run stopped_state = Some late_state) by reflexivity.
  split; [exact H1|]. split; [exact H2|].
  exact (stopped_is_monotone late_run stopped_state late_state H1 H2).
Defined.


(** The first element's [Write] fails: the second element is written to
    all the same. *)
Lemma write_failure_is_isolated_first_fails :
  pc_forward dispatching_state = FDispatch (Some sample0) /\
  stopped (self dispatching_state) = false /\
  panicked dispatching_state = false /\
  exists s',
    step (ActForward [Some (errors_New "disk full")]) dispatching_state = Some s' /\
    trace s' = trace dispatching_state
               ++ [EvWrite recorder (Some sample0);
                   EvLogError "error writing sample: disk full";
                   EvWrite analyzer (Some sample0)] /\
    pc_forward s' = FRecv /\
    panicked s' = false.
Proof.
  assert (H1 : pc_forward dispatching_state = FDispatch (Some sample0))
    by reflexivity.
  assert (H2 : stopped (self dispatching_state) = false) by reflexivity.
  assert (H3 : panicked dispatching_state = false) by reflexivity.
  split; [exact H1|]. split; [exact H2|]. split; [exact H3|].
  destruct (write_failure_is_isolated dispatching_state (Some sample0)
              [Some (errors_New "disk full")] H1 H2 H3)
    as (s' & Hstep & Htr & _ & _ & Hpc & _ & Hp).
  exists s'. split; [exact Hstep|]. split; [exact Htr|]. split; [exact Hpc|exact Hp].
Defined.

(** [late] is attached to the stopped builder of [two_stop_run]. *)
Lemma attach_after_stop_late :
  run two_stop_run (NewBuilder opus_track 50) = Some stopped_state /\
  stopped (self stopped_state) = true /\
  panicked stopped_state = false /\
  exists s1',
    step (ActAttachElement late) stopped_state = Some s1' /\
    elements (self s1') = elements (self stopped_state) ++ [late] /\
    forall acts2 s2,
      run acts2 s1' = Some s2 ->
      (exists evs, trace s2 = trace stopped_state ++ evs /\ Forall quiet evs) /\
      (~ In late (elements (self stopped_state)) ->
       forall ev, In ev (trace s2) -> callee ev <> Some late).
Proof.
  assert (H1 : run two_stop_run (NewBuilder opus_track 50) = Some stopped_state)
    by reflexivity.
  assert (H2 : stopped (self stopped_state) = true) by reflexivity.
  assert (H3 : panicked stopped_state = false) by reflexivity.
  split; [exact H1|]. split; [exact H2|]. split; [exact H3|].
  exact (attach_after_stop opus_track 50 two_stop_run stopped_state late H1 H2 H3).
Defined.

(** ** More properties of the builder *)

Section BuilderMore.

Context {SB : SampleBuilderAPI}.

(** [stop] leaves everything but [stopped], [out]'s closing and the
    trace as it was. *)
Lemma stop_frame (s : Sys) :
  coherent s ->
  pc_build (stop s) = pc_build s /\
  pc_forward (stop s) = pc_forward s /\
  panicked (stop s) = panicked s /\
  elements (self (stop s)) = elements (self s) /\
  track (self (stop s)) = track (self s) /\
  sequence (self (stop s)) = sequence (self s) /\
  onStopHandler (self (stop s)) = onStopHandler (self s) /\
  buf (out (self (stop s))) = buf (out (self s)) /\
  cap (out (self (stop s))) = cap (out (self s)) /\
  stopped (self (stop s)) = true /\
  trace (stop s) =
    trace s ++ (if stopped (self s) then []
                else teardown_of (elements (self s)) (onStopHandler (self s))).
Proof.
  unfold coherent, stop, chan_close. intros Hc.
  destruct (stopped (self s)) eqn:Hs.
  - rewrite app_nil_r. repeat split. exact Hs.
  - rewrite Hc. unfold teardown_of.
    destruct (onStopHandler (self s)) eqn:Hh; simpl; rewrite ?Hh;
      rewrite <- ?app_assoc; repeat split.
Qed.

(** The cases of a transition, with the state after it spelled out. *)
Ltac step_inv H :=
  match type of H with
  | step ?a ?s = Some _ =>
      unfold step in H;
      destruct (panicked s) eqn:Hpanicked; [discriminate H|];
      destruct a as [r|results|e|f| |];
      [ unfold build_step in H; destruct (pc_build s) eqn:Hpc;
        [ destruct (stopped (self s)) eqn:Hstopped
        | destruct r as [pkt|[|msg]]
        |
        | destruct (sb_PopWithTimestamp (builder (self s)))
            as [[sample' timestamp'] sb'] eqn:Hpop
        | destruct (stopped (self s)) eqn:Hstopped;
          [|match goal with smp : option media_Sample |- _ => destruct smp end]
        | unfold chan_send in H; destruct (closed (out (self s))) eqn:Hclosed;
          [|destruct (List.length (buf (out (self s))) <? cap (out (self s)))%nat
              eqn:Hroom]
        | ]
      | unfold forward_step in H; destruct (pc_forward s) eqn:Hpc;
        [ unfold chan_recv in H; destruct (buf (out (self s))) eqn:Hbuf;
          [destruct (closed (out (self s))) eqn:Hclosed|]
        | destruct (stopped (self s)) eqn:Hstopped
        | ]
      | | | | ];
      try discriminate H; inversion H; subst; clear H
  end.

(** A property of states that every transition keeps holds along every
    run. *)
Lemma run_sys_invariant (I : Sys -> Prop) :
  (forall a s s', coherent s -> I s -> step a s = Some s' -> I s') ->
  forall acts s s',
    coherent s -> I s -> run acts s = Some s' -> I s'.
Proof.
  intros HI acts. induction acts as [|a acts IH]; intros s s' Hc Hi Hrun.
  - inversion Hrun; subst. exact Hi.
  - simpl in Hrun. destruct (step a s) as [s1|] eqn:Hstep; [|discriminate].
    destruct (step_effect a s s1 Hc Hstep) as (Hc1 & _).
    apply (IH s1 s'); eauto.
Qed.

(** *** The capacity of [out] *)

Lemma chan_bounded_step (a : Action) (s s' : Sys) :
  coherent s -> chan_bounded s -> step a s = Some s' -> chan_bounded s'.
Proof.
  unfold chan_bounded. intros Hc [Hcap Hlen] H.
  destruct (stop_frame s Hc) as (_ & _ & _ & _ & _ & _ & _ & Hb & Hcp & _).
  step_inv H; simpl; rewrite ?Hb, ?Hcp; auto.
  - apply Nat.ltb_lt in Hroom. rewrite length_app. simpl. split; [auto|lia].
  - rewrite Hbuf. auto.
  - simpl in Hlen. split; [auto|lia].
Qed.

Lemma run_chan_bounded t maxLate acts s :
  run acts (NewBuilder t maxLate) = Some s -> chan_bounded s.
Proof.
  intros Hrun. eapply (run_sys_invariant chan_bounded); eauto.
  - intros; eapply chan_bounded_step; eauto.
  - apply NewBuilder_coherent.
  - split; simpl; [reflexivity|lia].
Qed.

(** X1. [out] is created with capacity [maxSize] and keeps it, and in no
    state of any run does it hold more than [maxSize] (100) samples. *)
Theorem out_holds_at_most_maxSize (t : webrtc_Track) (maxLate : Z)
    (acts : list Action) (s : Sys) :
  run acts (NewBuilder t maxLate) = Some s ->
  cap (out (self s)) = 100%nat /\
  (List.length (buf (out (self s))) <= 100)%nat.
Proof. intros Hrun. exact (run_chan_bounded t maxLate acts s Hrun). Qed.

Lemma run_coherent t maxLate acts s :
  run acts (NewBuilder t maxLate) = Some s -> coherent s.
Proof. intros Hrun. apply (reachable_coherent t maxLate). exists acts; exact Hrun. Qed.

(** X2. Where [build] and [forward] suspend.  With [build] at its send
    on a builder that is not stopped, the send cannot proceed exactly
    when 100 samples are queued, and it proceeds as soon as [forward] has
    taken one.  With [forward] at its receive, the receive cannot
    proceed exactly when nothing is queued and the builder is not
    stopped. *)
Theorem suspension_points (t : webrtc_Track) (maxLate : Z)
    (acts : list Action) (s : Sys) :
  run acts (NewBuilder t maxLate) = Some s ->
  panicked s = false ->
  (forall sample timestamp r,
     pc_build s = BSend sample timestamp ->
     stopped (self s) = false ->
     (step (ActBuild r) s = None <->
      List.length (buf (out (self s))) = 100%nat) /\
     (forall results r',
        pc_forward s = FRecv ->
        List.length (buf (out (self s))) = 100%nat ->
        exists s', run [ActForward results; ActBuild r'] s = Some s' /\
                   pc_build s' = BPop /\
                   List.length (buf (out (self s'))) = 100%nat)) /\
  (forall results,
     pc_forward s = FRecv ->
     (step (ActForward results) s = None <->
      buf (out (self s)) = [] /\ stopped (self s) = false)).
Proof.
  intros Hrun Hp.
  pose proof (run_coherent _ _ _ _ Hrun) as Hc.
  destruct (run_chan_bounded _ _ _ _ Hrun) as [Hcap Hlen].
  unfold coherent in Hc. unfold maxSize in *. split.
  - intros sample timestamp r Hpc Hs. rewrite Hs in Hc. split.
    + unfold step, build_step, chan_send. rewrite Hp, Hpc, Hc, Hcap. split.
      * destruct (List.length (buf (out (self s))) <? 100)%nat eqn:Hroom;
          [discriminate|]. apply Nat.ltb_ge in Hroom. lia.
      * intros ->. reflexivity.
    + intros results r' Hpcf Hfull.
      destruct (buf (out (self s))) as [|v rest] eqn:Hbuf; [discriminate|].
      simpl in Hfull.
      eexists. split.
      * simpl. unfold step at 1. rewrite Hp. unfold forward_step, chan_recv.
        rewrite Hpcf, Hbuf. unfold step. simpl. rewrite Hp.
        unfold build_step. simpl. rewrite Hpc. unfold chan_send. simpl.
        rewrite Hc, Hcap.
        replace (List.length rest <? 100)%nat with true
          by (symmetry; apply Nat.ltb_lt; lia).
        reflexivity.
      * simpl. split; [reflexivity|]. rewrite length_app. simpl. lia.
  - intros results Hpcf.
    unfold step, forward_step, chan_recv. rewrite Hp, Hpcf.
    destruct (buf (out (self s))) as [|v rest]; [|split; [discriminate|]].
    + rewrite Hc. destruct (stopped (self s)); split; try discriminate; auto.
      intros [_ H]; discriminate.
    + intros [H _]; discriminate.
Qed.

(** *** Panics *)

Lemma panic_at_send_step (a : Action) (s s' : Sys) :
  coherent s -> step a s = Some s' -> panic_at_send s'.
Proof.
  unfold panic_at_send. intros Hc H.
  destruct (stop_frame s Hc) as (_ & _ & Hsp & _).
  step_inv H; simpl; rewrite ?Hsp; try congruence.
  intros _. unfold coherent in Hc. split; [congruence|eauto].
Qed.

(** X3. Of the operations on [out], only the send of [build] can
    panic.  In every state of every run: while the builder is not
    stopped [out] is open, so that neither [close(b.out)] nor a send
    panics on it and no operation on it has panicked; [stop] never
    panics on [out], since it closes [out] only when [stopped] is not
    yet set; and if an operation on [out] has panicked, the builder is
    stopped and [build] stands at its send.  Panics raised inside an
    element, a handler or the sample builder are not part of the
    statement. *)
Theorem out_panics_only_at_send_after_stop (t : webrtc_Track) (maxLate : Z)
    (acts : list Action) (s : Sys) :
  run acts (NewBuilder t maxLate) = Some s ->
  (stopped (self s) = false ->
   chan_close (out (self s)) <> None /\
   (forall v, chan_send (out (self s)) v <> SendPanics) /\
   panicked s = false) /\
  panicked (stop s) = panicked s /\
  (panicked s = true ->
   stopped (self s) = true /\
   exists sample timestamp, pc_build s = BSend sample timestamp).
Proof.
  intros Hrun.
  pose proof (run_coherent _ _ _ _ Hrun) as Hc.
  assert (Hi : panic_at_send s).
  { revert Hrun. generalize (NewBuilder_coherent t maxLate).
    assert (H0 : panic_at_send (NewBuilder t maxLate)) by (intro; discriminate).
    revert H0. generalize (NewBuilder t maxLate).
    induction acts as [|a acts IH]; intros s0 H0 Hc0 Hrun.
    - inversion Hrun; subst; exact H0.
    - simpl in Hrun. destruct (step a s0) as [s1|] eqn:Hstep; [|discriminate].
      apply (IH s1); auto.
      + eapply panic_at_send_step; eauto.
      + apply (step_effect a s0 s1 Hc0 Hstep). }
  split; [|split; [apply (stop_frame s Hc)|exact Hi]].
  intros Hs. unfold coherent in Hc. rewrite Hs in Hc.
  unfold chan_close, chan_send. rewrite Hc. split; [discriminate|]. split.
  - intros v. destruct (_ <? _)%nat; discriminate.
  - destruct (panicked s) eqn:Hp; auto.
    destruct (Hi Hp) as [Hs' _]. congruence.
Qed.

(** *** Runs without a trigger of [stop] *)

Lemma running_step (a : Action) (s s' : Sys) :
  coherent s -> running s -> triggers_stop a = false ->
  step a s = Some s' -> running s'.
Proof.
  unfold running, coherent. intros Hc (Hs & Hp & Hb1 & Hb2 & Hf) Ha H.
  step_inv H; simpl; try discriminate Ha; try congruence;
    repeat split; auto; try discriminate; try congruence.
Qed.

(** X4. A run in which nobody calls [stop] and no read ends the track
    leaves the builder running: not stopped, not panicked, both
    goroutines still in their loops, no effect of teardown in the
    trace. *)
Theorem runs_until_stop_is_triggered (t : webrtc_Track) (maxLate : Z)
    (acts : list Action) (s : Sys) :
  forallb (fun a => negb (triggers_stop a)) acts = true ->
  run acts (NewBuilder t maxLate) = Some s ->
  stopped (self s) = false /\ panicked s = false /\
  pc_build s <> BReturned /\ pc_forward s <> FReturned /\
  filter is_teardown (trace s) = [].
Proof.
  intros Hall Hrun.
  assert (Hr : running s).
  { revert Hall Hrun. generalize (NewBuilder_coherent t maxLate).
    assert (H0 : running (NewBuilder t maxLate))
      by (repeat split; simpl; discriminate).
    revert H0. generalize (NewBuilder t maxLate).
    induction acts as [|a acts IH]; intros s0 H0 Hc0 Hall Hrun.
    - inversion Hrun; subst; exact H0.
    - simpl in Hall, Hrun. apply andb_prop in Hall. destruct Hall as [Ha Hall].
      apply negb_true_iff in Ha.
      destruct (step a s0) as [s1|] eqn:Hstep; [|discriminate].
      apply (IH s1); auto.
      + eapply running_step; eauto.
      + apply (step_effect a s0 s1 Hc0 Hstep). }
  destruct Hr as (Hs & Hp & _ & Hb & Hf).
  repeat split; auto.
  apply (run_invariant teardown_once) in Hrun;
    [ | exact teardown_once_effect | apply NewBuilder_coherent | reflexivity ].
  destruct Hrun as [_ Hj]. unfold teardown_once in Hj. rewrite Hs in Hj. exact Hj.
Qed.

(** *** What the state records *)

Lemma records_step (a : Action) (s s' : Sys) :
  coherent s -> step a s = Some s' ->
  elements (self s') = elements (self s) ++ attached [a] /\
  onStopHandler (self s') = registered (onStopHandler (self s)) [a] /\
  track (self s') = track (self s).
Proof.
  intros Hc H.
  destruct (stop_frame s Hc) as (_ & _ & _ & He & Ht & _ & Hh & _).
  step_inv H; simpl; rewrite ?He, ?Ht, ?Hh, ?app_nil_r; auto.
Qed.

Lemma attached_cons (a : Action) (acts : list Action) :
  attached (a :: acts) = attached [a] ++ attached acts.
Proof. destruct a; reflexivity. Qed.

Lemma registered_cons (f : option Handler) (a : Action) (acts : list Action) :
  registered f (a :: acts) = registered (registered f [a]) acts.
Proof. destruct a; reflexivity. Qed.

Lemma run_records (acts : list Action) (s s' : Sys) :
  coherent s -> run acts s = Some s' ->
  records (track (self s)) (elements (self s) ++ attached acts)
          (registered (onStopHandler (self s)) acts) s'.
Proof.
  revert s. induction acts as [|a acts IH]; intros s Hc Hrun.
  - inversion Hrun; subst. unfold records. simpl. rewrite app_nil_r. auto.
  - simpl in Hrun. destruct (step a s) as [s1|] eqn:Hstep; [|discriminate].
    destruct (records_step a s s1 Hc Hstep) as (He & Hh & Ht).
    destruct (step_effect a s s1 Hc Hstep) as (Hc1 & _).
    specialize (IH s1 Hc1 Hrun).
    rewrite attached_cons, registered_cons, app_assoc, <- He, <- Hh, <- Ht.
    exact IH.
Qed.

(** X5. The builder records the calls made on it and nothing else: after
    any run, [elements] is the list of the elements attached, in the
    order of the [AttachElement] calls (none is ever removed, also not by
    [stop]); [onStopHandler] is the argument of the last [OnStop] call,
    nil if there was none; [track] is the track given to [NewBuilder]. *)
Theorem builder_records_calls (t : webrtc_Track) (maxLate : Z)
    (acts : list Action) (s : Sys) :
  run acts (NewBuilder t maxLate) = Some s ->
  elements (self s) = attached acts /\
  onStopHandler (self s) = registered None acts /\
  Track (self s) = t.
Proof.
  intros Hrun.
  exact (run_records acts _ s (NewBuilder_coherent t maxLate) Hrun).
Qed.

(** *** Attachment and dispatch *)


(** *** The order of dispatch *)

Lemma writes_teardown_of es f : filter is_write (teardown_of es f) = [].
Proof. apply filter_none, teardown_of_no_write. Qed.

Lemma stop_sent_writes (s : Sys) :
  coherent s ->
  sent (trace (stop s)) = sent (trace s) /\
  filter is_write (trace (stop s)) = filter is_write (trace s).
Proof.
  intros Hc.
  destruct (stop_frame s Hc) as (_ & _ & _ & _ & _ & _ & _ & _ & _ & _ & Htr).
  rewrite Htr, sent_app, filter_app.
  destruct (stopped (self s)); simpl;
    rewrite ?sent_teardown_of, ?writes_teardown_of, !app_nil_r; auto.
Qed.





(** *** How long the goroutines live after [stop] *)

Lemma forward_dist_step (a : Action) (s s' : Sys) :
  coherent s -> stopped (self s) = true -> step a s = Some s' ->
  (forward_dist (pc_forward s') + List.length (filter is_forward [a])
   <= forward_dist (pc_forward s))%nat.
Proof.
  intros Hc Hs H.
  destruct (stop_frame s Hc) as (_ & Hpf & _).
  step_inv H; simpl; rewrite ?Hpf, ?Hpc; simpl; try lia; congruence.
Qed.

Lemma build_dist_step (a : Action) (s s' : Sys) :
  coherent s -> stopped (self s) = true -> step a s = Some s' ->
  panicked s' = true \/
  (build_dist (pc_build s') + List.length (filter is_build [a])
   <= build_dist (pc_build s))%nat.
Proof.
  intros Hc Hs H.
  destruct (stop_frame s Hc) as (Hpb & _).
  unfold coherent in Hc.
  step_inv H; simpl; rewrite ?Hpb, ?Hpc; simpl;
    try (right; lia); try congruence.
  left; reflexivity.
Qed.

Lemma filter_length_cons (A : Type) (p : A -> bool) (x : A) (l : list A) :
  List.length (filter p (x :: l)) =
  (List.length (filter p [x]) + List.length (filter p l))%nat.
Proof. simpl. destruct (p x); reflexivity. Qed.

Lemma run_panicked (acts : list Action) (s s' : Sys) :
  panicked s = true -> run acts s = Some s' -> s' = s.
Proof.
  intros Hp Hrun. destruct acts as [|a acts]; simpl in Hrun.
  - congruence.
  - unfold step in Hrun. rewrite Hp in Hrun. discriminate.
Qed.

(** X7. [forward] outlives [stop] by at most two transitions.  From a
    state an engine has reached with the builder stopped, every run has
    at most two transitions of [forward] (the receive and the pass that
    finds [stopped] set), after which it has returned; and as long as it
    has not returned and the process is alive, its next transition is
    never blocked, since [out] is closed. *)
Theorem forward_returns_after_stop (t : webrtc_Track) (maxLate : Z)
    (acts1 : list Action) (s : Sys) :
  run acts1 (NewBuilder t maxLate) = Some s ->
  stopped (self s) = true ->
  (forall acts2 s',
     run acts2 s = Some s' ->
     (forward_dist (pc_forward s') + List.length (filter is_forward acts2)
      <= forward_dist (pc_forward s))%nat) /\
  (panicked s = false -> pc_forward s <> FReturned ->
   forall results, step (ActForward results) s <> None).
Proof.
  intros Hrun Hs. pose proof (run_coherent _ _ _ _ Hrun) as Hc. split.
  - clear Hrun. intros acts2. revert s Hs Hc.
    induction acts2 as [|a acts2 IH]; intros s Hs Hc s' Hrun2.
    + inversion Hrun2; subst. simpl. lia.
    + simpl in Hrun2. destruct (step a s) as [s1|] eqn:Hstep; [|discriminate].
      pose proof (forward_dist_step a s s1 Hc Hs Hstep) as Hd.
      destruct (step_effect a s s1 Hc Hstep) as (Hc1 & _).
      pose proof (step_stopped a s s1 Hstep Hs) as Hs1.
      specialize (IH s1 Hs1 Hc1 s' Hrun2).
      rewrite filter_length_cons. lia.
  - intros Hp Hpc results. unfold step, forward_step, chan_recv.
    rewrite Hp, Hs. unfold coherent in Hc. rewrite Hc, Hs.
    destruct (pc_forward s); [|discriminate|congruence].
    destruct (buf (out (self s))); discriminate.
Qed.

(** X8. Once the builder is stopped, [build] has at most three
    transitions left.  From a state an engine has reached with the
    builder stopped, a run either ends in a panic (the send on the
    closed channel) or has at most [build_dist] transitions of [build],
    after which it has returned: three from [ReadRTP] (the read
    returning counts as one), two from the pop, one from the head of the
    loop, the re-check or the pending [b.stop()].  Everywhere but at
    [ReadRTP] the next transition needs nothing from outside: it is
    enabled whatever the environment offers.  At [ReadRTP] [build] does
    not look at [stopped]: it stays there until the read returns. *)
Theorem build_returns_after_stop (t : webrtc_Track) (maxLate : Z)
    (acts1 : list Action) (s : Sys) :
  run acts1 (NewBuilder t maxLate) = Some s ->
  stopped (self s) = true ->
  (forall acts2 s',
     run acts2 s = Some s' ->
     panicked s' = true \/
     (build_dist (pc_build s') + List.length (filter is_build acts2)
      <= build_dist (pc_build s))%nat) /\
  (panicked s = false -> pc_build s <> BReturned -> pc_build s <> BRead ->
   exists s', forall r, step (ActBuild r) s = Some s') /\
  (pc_build s = BRead ->
   forall others s',
     forallb (fun a => negb (is_build a)) others = true ->
     run others s = Some s' ->
     pc_build s' = BRead).
Proof.
  intros Hrun Hs. pose proof (run_coherent _ _ _ _ Hrun) as Hc.
  split; [|split].
  - clear Hrun. intros acts2. revert s Hs Hc.
    induction acts2 as [|a acts2 IH]; intros s Hs Hc s' Hrun2.
    + inversion Hrun2; subst. right. simpl. lia.
    + simpl in Hrun2. destruct (step a s) as [s1|] eqn:Hstep; [|discriminate].
      destruct (step_effect a s s1 Hc Hstep) as (Hc1 & _).
      pose proof (step_stopped a s s1 Hstep Hs) as Hs1.
      destruct (build_dist_step a s s1 Hc Hs Hstep) as [Hp1|Hd].
      * left. rewrite (run_panicked acts2 s1 s' Hp1 Hrun2). exact Hp1.
      * destruct (IH s1 Hs1 Hc1 s' Hrun2) as [Hp'|Hd']; [left; exact Hp'|].
        right. rewrite filter_length_cons. lia.
  - intros Hp Hpc Hread. unfold step, build_step, chan_send.
    rewrite Hp, Hs. unfold coherent in Hc. rewrite Hc, Hs.
    destruct (pc_build s); try congruence; try (eexists; intros r; reflexivity).
    destruct (sb_PopWithTimestamp (builder (self s))) as [[sm ts] sb'].
    eexists; intros r; reflexivity.
  - intros Hpc others s' Hall Hrun2.
    rewrite <- Hpc. eapply run_others_pc_build; eauto.
Qed.

(** *** The stop handler *)

Lemma onstop_teardown_of es f :
  (List.length (filter is_onstop (teardown_of es f)) <= 1)%nat.
Proof.
  unfold teardown_of. rewrite !filter_app, !length_app.
  replace (filter is_onstop (map EvClose es)) with (@nil Event)
    by (induction es; simpl; auto).
  destruct f; simpl; lia.
Qed.

Lemma filter_filter_onstop (tr : list Event) :
  filter is_onstop (filter is_teardown tr) = filter is_onstop tr.
Proof.
  induction tr as [|ev tr IH]; simpl; auto.
  destruct ev; simpl; rewrite ?IH; reflexivity.
Qed.

(** X9. The stop handler is called at most once in any run, and a
    handler registered once the builder is stopped is never called:
    whatever runs after the registration adds no handler call. *)
Theorem stop_handler_called_at_most_once (t : webrtc_Track) (maxLate : Z)
    (acts : list Action) (s : Sys) :
  run acts (NewBuilder t maxLate) = Some s ->
  (List.length (filter is_onstop (trace s)) <= 1)%nat /\
  (stopped (self s) = true ->
   forall f acts' s',
     run (ActOnStop f :: acts') s = Some s' ->
     filter is_onstop (trace s') = filter is_onstop (trace s)).
Proof.
  intros Hrun. pose proof (run_coherent _ _ _ _ Hrun) as Hc. split.
  - apply (run_invariant teardown_once) in Hrun;
      [ | exact teardown_once_effect | apply NewBuilder_coherent | reflexivity ].
    destruct Hrun as [_ Hj]. unfold teardown_once in Hj.
    rewrite <- filter_filter_onstop.
    destruct (stopped (self s)).
    + destruct Hj as (es & f & more & _ & ->). apply onstop_teardown_of.
    + rewrite Hj. simpl. lia.
  - intros Hs f acts' s' Hrun'.
    destruct (run_stopped _ s s' Hc Hs Hrun') as (_ & evs & -> & Hq).
    rewrite filter_app.
    replace (filter is_onstop evs) with (@nil Event); [apply app_nil_r|].
    symmetry. apply filter_none.
    eapply Forall_impl; [|exact Hq].
    intros ev [_ Htd]. destruct ev; simpl in *; auto; discriminate.
Qed.

(** *** [stats] *)

Lemma append_assoc (a b c : string) :
  ((a ++ b) ++ c = a ++ (b ++ c))%string.
Proof. induction a as [|ch a IH]; simpl; [reflexivity|now rewrite IH]. Qed.

Lemma append_nil_r (a : string) : (a ++ "" = a)%string.
Proof. induction a as [|ch a IH]; simpl; [reflexivity|now rewrite IH]. Qed.

Lemma stats_fold (es : list Element) (acc : string) :
  fold_left (fun info e => (info ++ "        element: " ++ elem_type e ++ newline)%string)
            es acc
  = (acc ++ fold_right String.append "" (map element_line es))%string.
Proof.
  revert acc. induction es as [|e es IH]; intros acc; simpl.
  - now rewrite append_nil_r.
  - rewrite IH, append_assoc. reflexivity.
Qed.

(** X10. The report of [stats] is the line of the track followed by one
    line per attached element, in attachment order; so attaching an
    element adds its line at the end of the report and changes nothing
    before it. *)
Theorem stats_lists_elements_in_order (b : Builder) (e : Element) :
  stats b = (track_line (track b)
             ++ fold_right String.append "" (map element_line (elements b)))%string /\
  stats (AttachElement e b) = (stats b ++ element_line e)%string.
Proof.
  unfold stats. split.
  - apply stats_fold.
  - simpl. rewrite fold_left_app. reflexivity.
Qed.

(** *** Codec selection *)

(** X11. [NewBuilder] binds a depacketizer exactly for the codecs named
    opus, VP8, VP9 and H264, and installs a partition head checker
    exactly for opus, VP8 and VP9: H264 is the one codec with a
    depacketizer and no checker.  The names are compared as they are,
    case included. *)
Theorem select_codec_supported (name : string) :
  (fst (select_codec name) <> None <->
   name = Opus \/ name = VP8 \/ name = VP9 \/ name = H264) /\
  (snd (select_codec name) <> None <->
   name = Opus \/ name = VP8 \/ name = VP9).
Proof.
  unfold select_codec.
  destruct (String.eqb_spec name Opus) as [->|H1];
    [split; (split; [auto|discriminate])|].
  destruct (String.eqb_spec name VP8) as [->|H2];
    [split; (split; [auto|discriminate])|].
  destruct (String.eqb_spec name VP9) as [->|H3];
    [split; (split; [auto|discriminate])|].
  destruct (String.eqb_spec name H264) as [->|H4]; simpl.
  - split; (split; [auto|]); try discriminate.
    + intros H; congruence.
    + intros [H|[H|H]]; discriminate H.
  - split; (split; [congruence|]); intuition congruence.
Qed.

(** *** The samples sent *)

Lemma sent_of_track_step (t : webrtc_Track) (a : Action) (s s' : Sys) :
  coherent s -> track (self s) = t ->
  Forall (fun v => TrackID v = ID t /\ Type_ v = codec_Type (Codec t))
         (sent (trace s)) ->
  step a s = Some s' ->
  Forall (fun v => TrackID v = ID t /\ Type_ v = codec_Type (Codec t))
         (sent (trace s')).
Proof.
  intros Hc Ht Hall H.
  destruct (stop_sent_writes s Hc) as [Hss _].
  step_inv H; simpl; rewrite ?Hss, ?sent_app, ?sent_write_all; simpl;
    rewrite ?app_nil_r; auto.
  apply Forall_app. split; auto.
Qed.

(** X12. Every sample handed to [out] carries the ID of the track given
    to [NewBuilder] as its [TrackID] and the type of that track's codec
    as its [Type]. *)
Theorem sent_samples_carry_track (t : webrtc_Track) (maxLate : Z)
    (acts : list Action) (s : Sys) :
  run acts (NewBuilder t maxLate) = Some s ->
  Forall (fun v => TrackID v = ID t /\ Type_ v = codec_Type (Codec t))
         (sent (trace s)).
Proof.
  intros Hrun.
  assert (H : track (self s) = t /\
              Forall (fun v => TrackID v = ID t /\ Type_ v = codec_Type (Codec t))
                     (sent (trace s))); [|apply H].
  eapply (run_sys_invariant
            (fun s => track (self s) = t /\
                      Forall (fun v => TrackID v = ID t /\
                                       Type_ v = codec_Type (Codec t))
                             (sent (trace s)))); eauto.
  - intros a s0 s1 Hc [Ht Hall] Hstep. split.
    + destruct (records_step a s0 s1 Hc Hstep) as (_ & _ & Ht'). congruence.
    + eapply sent_of_track_step; eauto.
  - apply NewBuilder_coherent.
  - split; [reflexivity|constructor].
Qed.

(** *** Returning and blocking *)

Lemma returned_after_stop_step (a : Action) (s s' : Sys) :
  coherent s -> returned_after_stop s -> step a s = Some s' ->
  returned_after_stop s'.
Proof.
  unfold returned_after_stop. intros Hc [Hb Hf] H.
  destruct (stop_frame s Hc) as (Hpb & Hpf & _ & _ & _ & _ & _ & _ & _ & Hst & _).
  step_inv H; simpl; rewrite ?Hst; split; auto; try discriminate;
    try congruence;
    intros HP; first [specialize (Hf HP) | specialize (Hb HP)]; congruence.
Qed.

Lemma run_returned_after_stop t maxLate acts s :
  run acts (NewBuilder t maxLate) = Some s -> returned_after_stop s.
Proof.
  intros Hrun. eapply (run_sys_invariant returned_after_stop); eauto.
  - intros; eapply returned_after_stop_step; eauto.
  - apply NewBuilder_coherent.
  - split; discriminate.
Qed.

(** X13. Neither goroutine returns while the builder is not stopped: in
    every state of every run, if [build] or [forward] has returned then
    [stopped] is set.  Read errors, failing [Write] calls and an empty
    sample builder never end a loop. *)
Theorem goroutines_return_only_after_stop (t : webrtc_Track) (maxLate : Z)
    (acts : list Action) (s : Sys) :
  run acts (NewBuilder t maxLate) = Some s ->
  (pc_build s = BReturned -> stopped (self s) = true) /\
  (pc_forward s = FReturned -> stopped (self s) = true).
Proof. intros Hrun. exact (run_returned_after_stop t maxLate acts s Hrun). Qed.


End BuilderMore.

(** ** The further properties at work *)


(** With a hundred samples queued [out] is at its bound. *)
Lemma out_holds_at_most_maxSize_full :
  run full_run (NewBuilder opus_track 50) = Some full_state /\
  cap (out (self full_state)) = 100%nat /\
  (List.length (buf (out (self full_state))) <= 100)%nat /\
  List.length (buf (out (self full_state))) = 100%nat.
Proof.
  assert (H : run full_run (NewBuilder opus_track 50) = Some full_state)
    by (vm_compute; reflexivity).
  split; [exact H|].
  destruct (out_holds_at_most_maxSize opus_track 50 full_run full_state H)
    as [Hcap Hlen].
  split; [exact Hcap|]. split; [exact Hlen|reflexivity].
Defined.

(** With a hundred samples queued the send of the next one is blocked,
    and it goes through once [forward] has received one. *)
Lemma suspension_points_full :
  run full_run (NewBuilder opus_track 50) = Some full_state /\
  panicked full_state = false /\
  step (ActBuild (ReadPacket pkt0)) full_state = None /\
  exists s',
    run [ActForward []; ActBuild (ReadPacket pkt0)] full_state = Some s' /\
    pc_build s' = BPop /\
    List.length (buf (out (self s'))) = 100%nat.
Proof.
  assert (H : run full_run (NewBuilder opus_track 50) = Some full_state)
    by (vm_compute; reflexivity).
  assert (Hp : panicked full_state = false) by reflexivity.
  split; [exact H|]. split; [exact Hp|].
  destruct (suspension_points opus_track 50 full_run full_state H Hp)
    as [Hsend _].
  destruct (Hsend {| Data := [x01; x02] |} 960%Z (ReadPacket pkt0)
              eq_refl eq_refl) as [Hiff Hgo].
  split.
  - apply Hiff. reflexivity.
  - exact (Hgo [] (ReadPacket pkt0) eq_refl eq_refl).
Defined.

(** The panic of [race_run] is the send, on a stopped builder. *)
Lemma out_panics_only_at_send_after_stop_race :
  run race_run (NewBuilder opus_track 50) = Some panicked_state /\
  panicked panicked_state = true /\
  stopped (self panicked_state) = true /\
  exists sample timestamp, pc_build panicked_state = BSend sample timestamp.
Proof.
  assert (H : run race_run (NewBuilder opus_track 50) = Some panicked_state)
    by reflexivity.
  split; [exact H|]. split; [reflexivity|].
  destruct (out_panics_only_at_send_after_stop opus_track 50 race_run
              panicked_state H) as (_ & _ & Hpanic).
  exact (Hpanic eq_refl).
Defined.

(** An attach, a packet and a dispatch pass: nothing stops the builder. *)
Lemma runs_until_stop_is_triggered_dispatched :
  forallb (fun a => negb (triggers_stop a)) dispatched_run = true /\
  run dispatched_run (NewBuilder opus_track 50) = Some dispatched_state /\
  stopped (self dispatched_state) = false /\
  panicked dispatched_state = false /\
  pc_build dispatched_state <> BReturned /\
  pc_forward dispatched_state <> FReturned /\
  filter is_teardown (trace dispatched_state) = [].
Proof.
  assert (H1 : forallb (fun a => negb (triggers_stop a)) dispatched_run = true)
    by reflexivity.
  assert (H2 : run dispatched_run (NewBuilder opus_track 50)
               = Some dispatched_state) by reflexivity.
  split; [exact H1|]. split; [exact H2|].
  exact (runs_until_stop_is_triggered opus_track 50 dispatched_run
           dispatched_state H1 H2).
Defined.

(** After [two_stop_run]: both elements, the handler, the track. *)
Lemma builder_records_calls_two_paths :
  run two_stop_run (NewBuilder opus_track 50) = Some stopped_state /\
  elements (self stopped_state) = [recorder; analyzer] /\
  onStopHandler (self stopped_state) = Some 5%nat /\
  Track (self stopped_state) = opus_track.
Proof.
  assert (H : run two_stop_run (NewBuilder opus_track 50) = Some stopped_state)
    by reflexivity.
  split; [exact H|].
  exact (builder_records_calls opus_track 50 two_stop_run stopped_state H).
Defined.


(** Stopped with a sample still queued: [forward] receives it, finds
    [stopped] set and returns. *)
Lemma forward_returns_after_stop_queued :
  run just_stopped_run (NewBuilder opus_track 50) = Some just_stopped_state /\
  stopped (self just_stopped_state) = true /\
  (forall acts2 s',
     run acts2 just_stopped_state = Some s' ->
     (forward_dist (pc_forward s') + List.length (filter is_forward acts2)
      <= forward_dist (pc_forward just_stopped_state))%nat) /\
  step (ActForward []) just_stopped_state <> None.
Proof.
  assert (H1 : run just_stopped_run (NewBuilder opus_track 50)
               = Some just_stopped_state) by reflexivity.
  assert (H2 : stopped (self just_stopped_state) = true) by reflexivity.
  split; [exact H1|]. split; [exact H2|].
  destruct (forward_returns_after_stop opus_track 50 just_stopped_run
              just_stopped_state H1 H2) as [Ha Hb].
  split; [exact Ha|]. apply Hb; [reflexivity|discriminate].
Defined.

(** Stopped with [build] at the head of its loop: one transition and it
    has returned. *)
Lemma build_returns_after_stop_queued :
  run just_stopped_run (NewBuilder opus_track 50) = Some just_stopped_state /\
  stopped (self just_stopped_state) = true /\
  (forall acts2 s',
     run acts2 just_stopped_state = Some s' ->
     panicked s' = true \/
     (build_dist (pc_build s') + List.length (filter is_build acts2)
      <= build_dist (pc_build just_stopped_state))%nat) /\
  exists s', forall r, step (ActBuild r) just_stopped_state = Some s'.
Proof.
  assert (H1 : run just_stopped_run (NewBuilder opus_track 50)
               = Some just_stopped_state) by reflexivity.
  assert (H2 : stopped (self just_stopped_state) = true) by reflexivity.
  split; [exact H1|]. split; [exact H2|].
  destruct (build_returns_after_stop opus_track 50 just_stopped_run
              just_stopped_state H1 H2) as (Ha & Hb & _).
  split; [exact Ha|]. apply Hb; [reflexivity|discriminate|discriminate].
Defined.

(** In [two_stop_run] the handler is called once although [stop] runs
    twice. *)
Lemma stop_handler_called_at_most_once_two_paths :
  run two_stop_run (NewBuilder opus_track 50) = Some stopped_state /\
  (List.length (filter is_onstop (trace stopped_state)) <= 1)%nat /\
  filter is_onstop (trace stopped_state) = [EvOnStop 5%nat] /\
  (stopped (self stopped_state) = true ->
   forall f acts' s',
     run (ActOnStop f :: acts') stopped_state = Some s' ->
     filter is_onstop (trace s') = filter is_onstop (trace stopped_state)).
Proof.
  assert (H : run two_stop_run (NewBuilder opus_track 50) = Some stopped_state)
    by reflexivity.
  split; [exact H|].
  destruct (stop_handler_called_at_most_once opus_track 50 two_stop_run
              stopped_state H) as [Ha Hb].
  split; [exact Ha|]. split; [reflexivity|exact Hb].
Defined.

(** The two samples of [two_samples_run] carry the track's ID and codec
    type. *)
Lemma sent_samples_carry_track_two :
  run two_samples_run (NewBuilder opus_track 50) = Some two_samples_state /\
  Forall (fun v => TrackID v = ID opus_track /\
                   Type_ v = codec_Type (Codec opus_track))
         (sent (trace two_samples_state)).
Proof.
  assert (H : run two_samples_run (NewBuilder opus_track 50)
              = Some two_samples_state) by reflexivity.
  split; [exact H|].
  exact (sent_samples_carry_track opus_track 50 two_samples_run
           two_samples_state H).
Defined.

(** After [two_stop_run] both goroutines have returned, on a stopped
    builder. *)
Lemma goroutines_return_only_after_stop_two_paths :
  run two_stop_run (NewBuilder opus_track 50) = Some stopped_state /\
  pc_build stopped_state = BReturned /\
  pc_forward stopped_state = FReturned /\
  stopped (self stopped_state) = true.
Proof.
  assert (H : run two_stop_run (NewBuilder opus_track 50) = Some stopped_state)
    by reflexivity.
  split; [exact H|]. split; [reflexivity|]. split; [reflexivity|].
  exact (proj1 (goroutines_return_only_after_stop opus_track 50 two_stop_run
                  stopped_state H) eq_refl).
Defined.


(** ** Properties of [AVP] *)

Section AvpProperties.

Context {Config SFU : Type}.

Implicit Types (a : @Avp.AVP Config SFU) (m : @Avp.Clients SFU)
  (st : @Avp.AVP Config SFU * list (@Avp.Call Config SFU)).

Lemma lookup_delete (addr addr' : string) m :
  Avp.lookup addr' (Avp.delete addr m) =
  if String.eqb addr addr' then None else Avp.lookup addr' m.
Proof.
  induction m as [|[k c] m IH]; simpl.
  - destruct (String.eqb addr addr'); reflexivity.
  - destruct (String.eqb_spec k addr) as [->|Hk]; simpl.
    + rewrite IH. destruct (String.eqb addr addr'); reflexivity.
    + rewrite IH. destruct (String.eqb_spec k addr') as [->|Hk']; auto.
      destruct (String.eqb_spec addr addr'); congruence.
Qed.

Lemma lookup_store (addr addr' : string) (c : SFU) m :
  Avp.lookup addr' (Avp.store addr c m) =
  if String.eqb addr addr' then Some c else Avp.lookup addr' m.
Proof.
  unfold Avp.store. simpl. rewrite lookup_delete.
  destruct (String.eqb addr addr'); reflexivity.
Qed.

(** X15. After [Process] for an address, [clients] holds a client for
    it: the one it held before, or else the one [NewSFU] returned, and
    [NewSFU] is called exactly when it held none.  The transport is
    requested from that client and processes the request; the clients
    of other addresses stay as they were.  A further [Process] for the
    same address then leaves [clients] unchanged and makes its two calls
    on the same client, creating none. *)
Theorem Process_binds_one_client (new new' : SFU)
    (addr pid sid tid eid pid' sid' tid' eid' : string)
    (cfg cfg' : list byte) a :
  let c := match Avp.lookup addr (Avp.clients a) with
           | Some c => c
           | None => new
           end in
  let a' := fst (Avp.Process new addr pid sid tid eid cfg a) in
  let calls := snd (Avp.Process new addr pid sid tid eid cfg a) in
  Avp.lookup addr (Avp.clients a') = Some c /\
  (forall addr', addr' <> addr ->
     Avp.lookup addr' (Avp.clients a') = Avp.lookup addr' (Avp.clients a)) /\
  (exists pre,
     calls = pre ++ [Avp.CallGetTransport c sid;
                     Avp.CallProcess c sid pid tid eid cfg] /\
     (pre = [] <-> Avp.lookup addr (Avp.clients a) <> None) /\
     (pre <> [] -> pre = [Avp.CallNewSFU addr (Avp.config a);
                          Avp.CallOnClose new addr])) /\
  Avp.Process new' addr pid' sid' tid' eid' cfg' a' =
    (a', [Avp.CallGetTransport c sid';
          Avp.CallProcess c sid' pid' tid' eid' cfg']).
Proof.
  unfold Avp.Process.
  destruct (Avp.lookup addr (Avp.clients a)) as [c0|] eqn:Hl;
    cbn [fst snd Avp.clients Avp.config].
  - rewrite Hl. repeat split; auto.
    exists []. repeat split; auto; try discriminate. congruence.
  - rewrite !lookup_store, String.eqb_refl. repeat split; auto.
    + intros addr' Hne. rewrite lookup_store.
      destruct (String.eqb_spec addr addr'); congruence.
    + exists [Avp.CallNewSFU addr (Avp.config a); Avp.CallOnClose new addr].
      repeat split; auto; try discriminate. congruence.
Qed.

(** X16. The close callback of an address removes the client of that
    address and no other, whether or not there was one; the next
    [Process] for the address creates a new client. *)
Theorem on_close_forgets_one_client (new : SFU)
    (addr pid sid tid eid : string) (cfg : list byte) a :
  Avp.lookup addr (Avp.clients (Avp.on_close addr a)) = None /\
  (forall addr', addr' <> addr ->
     Avp.lookup addr' (Avp.clients (Avp.on_close addr a))
     = Avp.lookup addr' (Avp.clients a)) /\
  snd (Avp.Process new addr pid sid tid eid cfg (Avp.on_close addr a)) =
    [Avp.CallNewSFU addr (Avp.config a); Avp.CallOnClose new addr;
     Avp.CallGetTransport new sid; Avp.CallProcess new sid pid tid eid cfg] /\
  Avp.lookup addr
    (Avp.clients (fst (Avp.Process new addr pid sid tid eid cfg
                         (Avp.on_close addr a)))) = Some new.
Proof.
  unfold Avp.Process, Avp.on_close. cbn [fst snd Avp.clients Avp.config].
  rewrite !lookup_delete, String.eqb_refl. cbn [fst snd Avp.clients Avp.config].
  rewrite lookup_store, String.eqb_refl. repeat split; auto.
  intros addr' Hne. rewrite lookup_delete.
  destruct (String.eqb_spec addr addr'); congruence.
Qed.

Lemma creations_app (addr : string) (l1 l2 : list (@Avp.Call Config SFU)) :
  Avp.creations addr (l1 ++ l2)
  = (Avp.creations addr l1 + Avp.creations addr l2)%nat.
Proof. unfold Avp.creations. now rewrite filter_app, length_app. Qed.

Lemma creations_found (addr sid pid tid eid : string) (c : SFU)
    (cfg : list byte) :
  @Avp.creations Config SFU addr
    [Avp.CallGetTransport c sid; Avp.CallProcess c sid pid tid eid cfg] = 0%nat.
Proof. reflexivity. Qed.

Lemma creations_new (addr k sid pid tid eid : string) (cfg0 : Config)
    (new : SFU) (cfg : list byte) :
  Avp.creations addr
    [Avp.CallNewSFU k cfg0; Avp.CallOnClose new k;
     Avp.CallGetTransport new sid; Avp.CallProcess new sid pid tid eid cfg]
  = if String.eqb k addr then 1%nat else 0%nat.
Proof.
  unfold Avp.creations. simpl. destruct (String.eqb k addr); reflexivity.
Qed.

Lemma balanced_apply (addr : string) (o : @Avp.Op SFU) st (n : nat) :
  Avp.balanced addr st n ->
  Avp.balanced addr (Avp.apply_op o st) (n + Avp.closings addr [o]).
Proof.
  unfold Avp.balanced. destruct st as [a calls]. intros H.
  cbn [fst snd] in H.
  destruct o as [new k pid sid tid eid cfg|k]; cbn [Avp.apply_op fst snd].
  - replace (Avp.closings addr [Avp.OpProcess new k pid sid tid eid cfg])
      with 0%nat by reflexivity.
    unfold Avp.Process.
    destruct (Avp.lookup k (Avp.clients a)) as [c|] eqn:Hk;
      cbn [fst snd Avp.clients]; rewrite creations_app.
    + rewrite creations_found. lia.
    + rewrite creations_new, lookup_store.
      destruct (String.eqb_spec k addr) as [->|Hne].
      * rewrite Hk in H. lia.
      * lia.
  - cbn [Avp.on_close Avp.clients]. rewrite lookup_delete.
    replace (Avp.closings addr [Avp.OpClosed k])
      with (if String.eqb k addr then 1%nat else 0%nat)
      by (unfold Avp.closings; simpl; destruct (String.eqb k addr); reflexivity).
    destruct (String.eqb k addr);
      destruct (Avp.lookup addr (Avp.clients a)); lia.
Qed.

Lemma closings_cons (addr : string) (o : @Avp.Op SFU) (ops : list Avp.Op) :
  Avp.closings addr (o :: ops)
  = (Avp.closings addr [o] + Avp.closings addr ops)%nat.
Proof.
  unfold Avp.closings. simpl.
  destruct o; simpl; auto. destruct (String.eqb addr0 addr); reflexivity.
Qed.

Lemma balanced_fold (addr : string) (ops : list Avp.Op) st (n : nat) :
  Avp.balanced addr st n ->
  Avp.balanced addr (fold_left (fun st o => Avp.apply_op o st) ops st)
           (n + Avp.closings addr ops).
Proof.
  revert st n. induction ops as [|o ops IH]; intros st n H; simpl.
  - unfold Avp.closings. simpl. now rewrite Nat.add_0_r.
  - rewrite closings_cons, Nat.add_assoc.
    apply IH. apply balanced_apply. exact H.
Qed.

(** X17. One client per address at a time.  Over any sequence of
    [Process] calls and close callbacks on a new [AVP], [NewSFU] is
    called for an address at most once more than the close callback of
    that address has run; and while no client is registered for it, at
    most as often. *)
Theorem one_client_per_address (c : Config) (ops : list (@Avp.Op SFU))
    (addr : string) :
  let a := fst (Avp.run_ops ops c) in
  let calls := snd (Avp.run_ops ops c) in
  (Avp.creations addr calls <= Avp.closings addr ops + 1)%nat /\
  (Avp.lookup addr (Avp.clients a) = None ->
   (Avp.creations addr calls <= Avp.closings addr ops)%nat).
Proof.
  simpl. unfold Avp.run_ops.
  assert (H0 : Avp.balanced addr (Avp.NewAVP c, @nil (@Avp.Call Config SFU)) 0).
  { unfold Avp.balanced. simpl. unfold Avp.creations. simpl. lia. }
  pose proof (balanced_fold addr ops _ 0%nat H0) as H.
  unfold Avp.balanced in H. simpl in H.
  split; [lia|]. intros Hn. rewrite Hn in H. lia.
Qed.

End AvpProperties.
